(** * Subnet IPAM of k8s-ovn: the bit-rotation allocator and the pool parser

    Shallow embedding of [pkg/cluster/master.go] ([SubnetAllocator],
    [NewSubnetAllocator], [GetNetwork], [ReleaseNetwork], [IPToUint32],
    [Uint32ToIP]) and of the pool-configuration parser of the [ovnkube]
    command ([parseClusterSubnetEntries], [cidrsOverlap]).

    Go's [uint32] is a [Z] with its wrap-around written out; an IPv4
    address is its four octets; the allocation map [map[string]bool] is a
    [gmap string bool] whose missing keys read as [false]. *)

From Stdlib Require Import ZArith Lia List Bool Ascii String.
From stdpp Require Import base decidable option list strings gmap fin_maps.

Local Open Scope Z_scope.

(** ** 32-bit unsigned arithmetic *)

Module U32.

Definition modulus : Z := 2 ^ 32.
Definition max : Z := 0xFFFFFFFF.

Definition wrap (x : Z) : Z := x mod modulus.
Definition add (a b : Z) : Z := wrap (a + b).
Definition sub (a b : Z) : Z := wrap (a - b).
(** [a << k]: bits shifted beyond bit 31 are lost. *)
Definition shl (a k : Z) : Z := wrap (Z.shiftl a k).
Definition shr (a k : Z) : Z := Z.shiftr a k.
Definition div (a b : Z) : Z := a / b.
Definition rem (a b : Z) : Z := a mod b.

Definition inRange (x : Z) : Prop := 0 <= x < modulus.

End U32.

(** ** The parts of Go's [net], [strings] and [strconv] the program uses

    Only the IPv4 side of package [net] is modelled: an [IP] is the
    four-octet form ([To4]), and a mask is a CIDR mask of 32 bits, kept
    as its number of leading ones. *)

Record IP : Type := IPv4 { ip0 : Z; ip1 : Z; ip2 : Z; ip3 : Z }.

Inductive IPMask : Type := CIDRMask (ones : Z).

Record IPNet : Type := mkIPNet { net_IP : IP; net_Mask : IPMask }.

Definition Mask_Size (m : IPMask) : Z := let 'CIDRMask n := m in n.

(** The 32 bits of [CIDRMask ones 32], most significant octet first. *)
Definition mask_bits (m : IPMask) : Z :=
  Z.shiftl (Z.ones (Mask_Size m)) (32 - Mask_Size m).

#[global] Instance IP_eq_dec : EqDecision IP.
Proof. solve_decision. Defined.
#[global] Instance IPMask_eq_dec : EqDecision IPMask.
Proof. solve_decision. Defined.
#[global] Instance IPNet_eq_dec : EqDecision IPNet.
Proof. solve_decision. Defined.

(** [binary.BigEndian.Uint32(ip.To4())] *)
Definition IPToUint32 (ip : IP) : Z :=
  Z.lor (Z.lor (Z.lor (ip3 ip) (Z.shiftl (ip2 ip) 8)) (Z.shiftl (ip1 ip) 16))
        (Z.shiftl (ip0 ip) 24).

(** [byte(v)] *)
Definition byte (v : Z) : Z := v mod 256.

(** [binary.BigEndian.PutUint32(ip, u)] followed by [net.IPv4(ip[0..3])] *)
Definition Uint32ToIP (u : Z) : IP :=
  IPv4 (byte (Z.shiftr u 24)) (byte (Z.shiftr u 16)) (byte (Z.shiftr u 8)) (byte u).

(** [ip.Mask(m)]: octet-wise [and], read on the 32-bit form. *)
Definition IP_Mask (ip : IP) (m : IPMask) : IP :=
  Uint32ToIP (Z.land (IPToUint32 ip) (mask_bits m)).

(** [n.Contains(ip)]: [ip] and the network number agree under the mask. *)
Definition Contains (n : IPNet) (ip : IP) : bool :=
  Z.land (IPToUint32 (net_IP n)) (mask_bits (net_Mask n))
  =? Z.land (IPToUint32 ip) (mask_bits (net_Mask n)).

(** *** Decimal text *)

Definition code (c : ascii) : Z := Z.of_N (N_of_ascii c).

Definition isDigit (c : ascii) : bool := (48 <=? code c) && (code c <=? 57).

Definition digitChar (d : Z) : ascii := ascii_of_N (Z.to_N (48 + d)).

(** [uitoa]: the digits are produced from the least significant one into
    a buffer of 20 bytes. *)
Fixpoint uitoa_loop (buf : nat) (val : Z) (out : string) : string :=
  match buf with
  | O => out
  | S buf' =>
      if 10 <=? val
      then uitoa_loop buf' (val / 10) (String (digitChar (val - (val / 10) * 10)) out)
      else String (digitChar val) out
  end.

Definition uitoa (val : Z) : string :=
  if val =? 0 then "0"%string else uitoa_loop 20 val "".

(** [ip.String()] of a four-octet address *)
Definition IP_String (ip : IP) : string :=
  (uitoa (ip0 ip) +:+ "." +:+ uitoa (ip1 ip) +:+ "." +:+
   uitoa (ip2 ip) +:+ "." +:+ uitoa (ip3 ip))%string.

(** [n.String()]: the canonical CIDR text, the key of the allocation map *)
Definition IPNet_String (n : IPNet) : string :=
  (IP_String (net_IP n) +:+ "/" +:+ uitoa (Mask_Size (net_Mask n)))%string.

Definition big : Z := 0xFFFFFF.

(** [dtoi]: decimal to integer; returns the number, the count of
    characters consumed and success. *)
Fixpoint dtoi_loop (s : string) (n : Z) (i : nat) : Z * nat * bool :=
  match s with
  | String c s' =>
      if isDigit c then
        let n' := n * 10 + (code c - 48) in
        if big <=? n' then (big, i, false) else dtoi_loop s' n' (S i)
      else if Nat.eqb i 0 then (0, O, false) else (n, i, true)
  | EmptyString => if Nat.eqb i 0 then (0, O, false) else (n, i, true)
  end.

Definition dtoi (s : string) : Z * nat * bool := dtoi_loop s 0 O.

(** [s[c:]] *)
Fixpoint string_drop (c : nat) (s : string) : string :=
  match c, s with
  | O, _ => s
  | S c', String _ s' => string_drop c' s'
  | S _, EmptyString => EmptyString
  end.

(** [parseIPv4]: four decimal octets separated by dots; [todo] octets are
    still to be read and [i] have been read. Octets with leading zeros
    are read as decimal, as the Go releases of the time of this code did
    (Go 1.17 and later refuse them). *)
Fixpoint parseIPv4_loop (todo i : nat) (s : string) (p : list Z) : option (list Z) :=
  match todo with
  | O => if Nat.eqb (String.length s) 0 then Some p else None
  | S todo' =>
      if Nat.eqb (String.length s) 0 then None
      else
        let dot :=
          if Nat.ltb 0 i then
            match s with
            | String "."%char s' => Some s'
            | _ => None
            end
          else Some s in
        match dot with
        | None => None
        | Some s1 =>
            let '(n, c, ok) := dtoi s1 in
            if negb ok || (0xFF <? n) then None
            else parseIPv4_loop todo' (S i) (string_drop c s1) (p ++ [n])
        end
  end.

Definition parseIPv4 (s : string) : option IP :=
  match parseIPv4_loop 4 0 s [] with
  | Some [a; b; c; d] => Some (IPv4 a b c d)
  | _ => None
  end.

(** [bytealg.IndexByteString] *)
Fixpoint IndexByteString (s : string) (c : ascii) : option nat :=
  match s with
  | EmptyString => None
  | String x s' =>
      if Ascii.eqb x c then Some O else S <$> IndexByteString s' c
  end.

(** [s[:i]] *)
Fixpoint string_take (i : nat) (s : string) : string :=
  match i, s with
  | S i', String x s' => String x (string_take i' s')
  | _, _ => EmptyString
  end.

(** [net.ParseCIDR], its [*IPNet] result, for IPv4 text [a.b.c.d/n]. Go's
    function goes on with [parseIPv6] where [parseIPv4] refuses the
    address; that branch is left out, so the [None] of this definition is
    Go's error only for text that cannot be an IPv6 address either, and
    every IPv6 address has a colon: see [ipv4Text]. *)
Definition ParseCIDR (s : string) : option IPNet :=
  match IndexByteString s "/" with
  | None => None
  | Some i =>
      let addr := string_take i s in
      let mask := string_drop (S i) s in
      match parseIPv4 addr with
      | None => None
      | Some ip =>
          let '(n, j, ok) := dtoi mask in
          if negb ok || negb (Nat.eqb j (String.length mask)) || (n <? 0) || (32 <? n)
          then None
          else let m := CIDRMask n in Some (mkIPNet (IP_Mask ip m) m)
      end
  end.

(** Text without a colon. On such text [net.ParseCIDR] does what
    [ParseCIDR] does: its IPv6 branch accepts no address without a colon.
    What the development says about text that [ParseCIDR] refuses is said
    under this condition. *)
Definition ipv4Text (s : string) : Prop := IndexByteString s ":" = None.

#[global] Instance ipv4Text_dec (s : string) : Decision (ipv4Text s).
Proof. unfold ipv4Text. apply _. Defined.

(** ** The subnet allocator ([pkg/cluster/master.go]) *)

(** The errors of the allocator, one per [fmt.Errorf] of the source; the
    specification calls the first three [InvalidPool], the next
    [PoolExhausted], then [NotInPool] and [AlreadyFree]. *)
Inductive Error : Type :=
  | ErrParseNetwork          (* "Failed to parse network address: %q" *)
  | ErrHostCapacityZero      (* "Host capacity cannot be zero." *)
  | ErrSubnetCapacity        (* "Subnet capacity cannot be larger than ..." *)
  | ErrSubnetAllocatorFull   (* "No subnets available." *)
  | ErrNotInNetwork          (* "Provided subnet %v doesn't belong to the network %v." *)
  | ErrAlreadyAvailable.     (* "Provided subnet %v is already available." *)

#[global] Instance Error_eq_dec : EqDecision Error.
Proof. solve_decision. Defined.

Definition InvalidPool (e : Error) : Prop :=
  e = ErrParseNetwork \/ e = ErrHostCapacityZero \/ e = ErrSubnetCapacity.

(** The struct without its mutex: every method body runs under the lock,
    and is a function from state to state here. *)
Record SubnetAllocator : Type := mkSubnetAllocator {
  network    : IPNet;
  hostBits   : Z;
  leftShift  : Z;
  leftMask   : Z;
  rightShift : Z;
  rightMask  : Z;
  next       : Z;
  allocMap   : gmap string bool
}.

(** [m[k]] of a Go [map[string]bool]: a missing key reads [false]. *)
Definition mapGet (m : gmap string bool) (k : string) : bool :=
  default false (m !! k).

(** The loop over [inUse] that seeds the allocation map. *)
Fixpoint seedMap (netIP : IPNet) (inUse : list string) (amap : gmap string bool)
  : gmap string bool :=
  match inUse with
  | [] => amap
  | netStr :: rest =>
      match ParseCIDR netStr with
      | None => seedMap netIP rest amap
      | Some nIp =>
          if negb (Contains netIP (net_IP nIp)) then seedMap netIP rest amap
          else seedMap netIP rest (<[IPNet_String nIp := true]> amap)
      end
  end.

Definition NewSubnetAllocator (network : string) (hostBits : Z) (inUse : list string)
  : Error + SubnetAllocator :=
  match ParseCIDR network with
  | None => inl ErrParseNetwork
  | Some netIP =>
      let netMaskSize := Mask_Size (net_Mask netIP) in
      if hostBits =? 0 then inl ErrHostCapacityZero
      else if U32.sub 32 (U32.wrap netMaskSize) <? hostBits then inl ErrSubnetCapacity
      else
        let subnetBits := U32.sub (U32.sub 32 (U32.wrap netMaskSize)) hostBits in
        let rotate :=
          negb (U32.rem hostBits 8 =? 0)
          && negb (U32.div (U32.sub hostBits 1) 8
                   =? U32.div (U32.sub (U32.add hostBits subnetBits) 1) 8) in
        let leftShift := if rotate then U32.sub 8 (U32.rem hostBits 8) else 0 in
        let leftMask :=
          if rotate then U32.sub (U32.shl 1 (U32.sub 32 (U32.wrap netMaskSize))) 1
          else 0xFFFFFFFF in
        let rightShift := if rotate then U32.sub subnetBits leftShift else 0 in
        let rightMask :=
          if rotate then U32.shl (U32.sub (U32.shl 1 leftShift) 1) hostBits else 0 in
        inr {| network := netIP;
               hostBits := hostBits;
               leftShift := leftShift;
               leftMask := leftMask;
               rightShift := rightShift;
               rightMask := rightMask;
               next := 0;
               allocMap := seedMap netIP inUse ∅ |}
  end.

(** The two tests of [NewSubnetAllocator] on the host-bit count, on the
    prefix length [netMaskSize] that [netIP.Mask.Size()] returns: it is at
    most 32 for an IPv4 pool and up to 128 for an IPv6 pool. *)
Definition hostBitsCheck (netMaskSize hostBits : Z) : option Error :=
  if hostBits =? 0 then Some ErrHostCapacityZero
  else if U32.sub 32 (U32.wrap netMaskSize) <? hostBits then Some ErrSubnetCapacity
  else None.

Definition numSubnetBits (sna : SubnetAllocator) : Z :=
  U32.sub (U32.sub 32 (U32.wrap (Mask_Size (net_Mask (network sna))))) (hostBits sna).

Definition numSubnets (sna : SubnetAllocator) : Z := U32.shl 1 (numSubnetBits sna).

(** The candidate subnet of index [n]: the body of the scan up to
    [genSubnet]. *)
Definition genSubnet (sna : SubnetAllocator) (n : Z) : IPNet :=
  let baseipu := IPToUint32 (net_IP (network sna)) in
  let netMaskSize := Mask_Size (net_Mask (network sna)) in
  let shifted := U32.shl n (hostBits sna) in
  let ipu :=
    Z.lor (Z.lor baseipu (Z.land (U32.shl shifted (leftShift sna)) (leftMask sna)))
          (Z.land (U32.shr shifted (rightShift sna)) (rightMask sna)) in
  let genIp := Uint32ToIP ipu in
  mkIPNet genIp (CIDRMask (numSubnetBits sna + netMaskSize)).

Definition setNext (sna : SubnetAllocator) (v : Z) : SubnetAllocator :=
  {| network := network sna; hostBits := hostBits sna;
     leftShift := leftShift sna; leftMask := leftMask sna;
     rightShift := rightShift sna; rightMask := rightMask sna;
     next := v; allocMap := allocMap sna |}.

Definition setAlloc (sna : SubnetAllocator) (k : string) (b : bool) : SubnetAllocator :=
  {| network := network sna; hostBits := hostBits sna;
     leftShift := leftShift sna; leftMask := leftMask sna;
     rightShift := rightShift sna; rightMask := rightMask sna;
     next := next sna; allocMap := <[k := b]> (allocMap sna) |}.

(** [for i = 0; i < numSubnets; i++]: [todo] iterations remain and the
    loop variable is [i]. *)
Fixpoint GetNetwork_loop (todo : nat) (i : Z) (sna : SubnetAllocator)
  : SubnetAllocator * (Error + IPNet) :=
  match todo with
  | O => (setNext sna 0, inl ErrSubnetAllocatorFull)
  | S todo' =>
      let n := U32.rem (U32.add i (next sna)) (numSubnets sna) in
      let subnet := genSubnet sna n in
      if negb (mapGet (allocMap sna) (IPNet_String subnet))
      then (setNext (setAlloc sna (IPNet_String subnet) true) (U32.add n 1), inr subnet)
      else GetNetwork_loop todo' (U32.add i 1) sna
  end.

Definition GetNetwork (sna : SubnetAllocator) : SubnetAllocator * (Error + IPNet) :=
  GetNetwork_loop (Z.to_nat (numSubnets sna)) 0 sna.

Definition ReleaseNetwork (sna : SubnetAllocator) (ipnet : IPNet)
  : SubnetAllocator * option Error :=
  if negb (Contains (network sna) (net_IP ipnet)) then (sna, Some ErrNotInNetwork)
  else
    let ipnetStr := IPNet_String ipnet in
    if negb (mapGet (allocMap sna) ipnetStr) then (sna, Some ErrAlreadyAvailable)
    else (setAlloc sna ipnetStr false, None).

(** [k] calls of [GetNetwork] in a row, with their results in order. *)
Fixpoint GetNetworks (k : nat) (sna : SubnetAllocator)
  : SubnetAllocator * list (Error + IPNet) :=
  match k with
  | O => (sna, [])
  | S k' =>
      let '(sna1, r) := GetNetwork sna in
      let '(sna2, rs) := GetNetworks k' sna1 in
      (sna2, r :: rs)
  end.

(** ** The pool-configuration parser ([cmd/ovnkube]) *)

(** [strings.Split(s, sep)] for a separator of one byte: the pieces
    between the separators, [[""]] for the empty string. *)
Fixpoint Split (s : string) (sep : ascii) : list string :=
  match s with
  | EmptyString => [EmptyString]
  | String c s' =>
      if Ascii.eqb c sep then EmptyString :: Split s' sep
      else match Split s' sep with
           | piece :: pieces => String c piece :: pieces
           | [] => [String c EmptyString]
           end
  end.

(** [strconv.ParseUint(s, 10, 32)]: decimal digits only, no sign, at
    most [1<<32 - 1]. *)
Fixpoint ParseUint_loop (s : string) (n : Z) : option Z :=
  match s with
  | EmptyString => Some n
  | String c s' =>
      if isDigit c then
        let n1 := n * 10 + (code c - 48) in
        if U32.max <? n1 then None else ParseUint_loop s' n1
      else None
  end.

Definition ParseUint (s : string) : option Z :=
  match s with
  | EmptyString => None
  | _ => ParseUint_loop s 0
  end.

(** [ovncluster.CIDRNetworkEntry] *)
Record CIDRNetworkEntry : Type := mkCIDRNetworkEntry {
  CIDR : IPNet;
  HostSubnetLength : Z
}.

Inductive ParseError : Type :=
  | ErrParseUint       (* the error of strconv.ParseUint *)
  | ErrNotFormatted    (* "cluster-cidr not formatted properly" *)
  | ErrParseCIDR       (* the error of net.ParseCIDR *)
  | ErrOverlap.        (* "CIDR %s overlaps with another cluster network CIDR" *)

(** [cidrsOverlap]: does [cidr] overlap any entry of the list? *)
Fixpoint cidrsOverlap (cidr : IPNet) (cidrList : list CIDRNetworkEntry) : bool :=
  match cidrList with
  | [] => false
  | clusterEntry :: rest =>
      if Contains cidr (net_IP (CIDR clusterEntry))
         || Contains (CIDR clusterEntry) (net_IP cidr)
      then true
      else cidrsOverlap cidr rest
  end.

(** The body of the loop of [parseClusterSubnetEntries] for one entry. *)
Definition parseClusterEntry (clusterEntry : string)
    (parsedClusterList : list CIDRNetworkEntry) : ParseError + CIDRNetworkEntry :=
  let splitClusterEntry := Split clusterEntry "/" in
  let length :=
    match splitClusterEntry with
    | [_; _; third] =>
        match ParseUint third with
        | None => inl ErrParseUint
        | Some tmp => inr (U32.wrap tmp)
        end
    | [_; _] => inr 24
    | _ => inl ErrNotFormatted
    end in
  match length with
  | inl err => inl err
  | inr hostSubnetLength =>
      let text :=
        (nth 0 splitClusterEntry "" +:+ "/" +:+ nth 1 splitClusterEntry "")%string in
      match ParseCIDR text with
      | None => inl ErrParseCIDR
      | Some cidr =>
          if cidrsOverlap cidr parsedClusterList then inl ErrOverlap
          else inr (mkCIDRNetworkEntry cidr hostSubnetLength)
      end
  end.

Fixpoint parseClusterEntries (clusterEntriesList : list string)
    (parsedClusterList : list CIDRNetworkEntry) : ParseError + list CIDRNetworkEntry :=
  match clusterEntriesList with
  | [] => inr parsedClusterList
  | clusterEntry :: rest =>
      match parseClusterEntry clusterEntry parsedClusterList with
      | inl err => inl err
      | inr parsedClusterEntry =>
          parseClusterEntries rest (parsedClusterList ++ [parsedClusterEntry])
      end
  end.

Definition parseClusterSubnetEntries (clusterSubnetCmd : string)
  : ParseError + list CIDRNetworkEntry :=
  parseClusterEntries (Split clusterSubnetCmd ",") [].

(** [StartClusterMaster] fails with the error of
    [cluster.Kube.GetNamespaces()] or with the error of
    [NewSubnetAllocator]. *)
Inductive MasterError : Type :=
  | ErrGetNamespaces
  | ErrNewSubnetAllocator (err : Error).

(** The subnet annotations that are not empty, in the order of the
    namespaces: [subrange] of the source. *)
Definition subrange (annotations : list string) : list string :=
  filter (fun a => a <> ""%string) annotations.

(** The loop of [StartClusterMaster] that builds one allocator per pool,
    up to the list it stores in [cluster.masterSubnetAllocatorList]. Each
    turn of the loop lists the namespaces again: [GetNamespaces call] is
    what the listing number [call] returns, [None] when it fails, and
    otherwise the subnet annotation of each namespace ([""] for a
    namespace without one). *)
Fixpoint masterSubnetAllocators (ClusterIPNet : list CIDRNetworkEntry)
    (GetNamespaces : nat -> option (list string)) (call : nat)
  : MasterError + list SubnetAllocator :=
  match ClusterIPNet with
  | [] => inr []
  | clusterEntry :: rest =>
      match GetNamespaces call with
      | None => inl ErrGetNamespaces
      | Some annotations =>
          match NewSubnetAllocator (IPNet_String (CIDR clusterEntry))
                  (U32.sub 32 (HostSubnetLength clusterEntry)) (subrange annotations) with
          | inl err => inl (ErrNewSubnetAllocator err)
          | inr subnetAllocator =>
              match masterSubnetAllocators rest GetNamespaces (S call) with
              | inl err => inl err
              | inr masterSubnetAllocatorList =>
                  inr (subnetAllocator :: masterSubnetAllocatorList)
              end
          end
      end
  end.

(** * Verification *)

(** ** Bits of 32-bit values *)

Section Bits.

Lemma testbit_above (k x i : Z) :
  0 <= x < 2 ^ k -> k <= i -> Z.testbit x i = false.
Proof.
  intros Hx Hi.
  destruct (Z_lt_le_dec k 0) as [Hk|Hk].
  - rewrite Z.pow_neg_r in Hx by lia. lia.
  - rewrite <- (Z.mod_small x (2 ^ k)) by lia.
    apply Z.mod_pow2_bits_high. lia.
Qed.

Lemma range_of_bits (k x : Z) :
  0 <= k -> (forall i, k <= i -> Z.testbit x i = false) -> 0 <= x < 2 ^ k.
Proof.
  intros Hk Hhigh.
  assert (Hx : x mod 2 ^ k = x).
  { apply Z.bits_inj'. intros i Hi.
    rewrite Z.testbit_mod_pow2 by lia.
    destruct (Z.ltb_spec i k); simpl; [reflexivity|].
    symmetry. apply Hhigh. lia. }
  rewrite <- Hx. apply Z.mod_pos_bound. apply Z.pow_pos_nonneg; lia.
Qed.

Lemma lor_disjoint_add (x y : Z) : Z.land x y = 0 -> Z.lor x y = x + y.
Proof. intros H. pose proof (Z.add_lor_land x y). lia. Qed.

Lemma land_low_shiftl (k x y : Z) :
  0 <= k -> 0 <= x < 2 ^ k -> Z.land x (Z.shiftl y k) = 0.
Proof.
  intros Hk Hx. apply Z.bits_inj'. intros i Hi.
  rewrite Z.land_spec, Z.shiftl_spec, Z.bits_0 by lia.
  destruct (Z_lt_le_dec i k).
  - rewrite (Z.testbit_neg_r y) by lia. apply andb_false_r.
  - rewrite (testbit_above k x i) by lia. reflexivity.
Qed.

Lemma lor_shiftl_add (k x y : Z) :
  0 <= k -> 0 <= x < 2 ^ k -> Z.lor x (Z.shiftl y k) = x + y * 2 ^ k.
Proof.
  intros Hk Hx. rewrite lor_disjoint_add by (apply land_low_shiftl; lia).
  rewrite Z.shiftl_mul_pow2 by lia. reflexivity.
Qed.

End Bits.

(** ** Addresses and masks *)

Definition octet (x : Z) : Prop := 0 <= x < 256.

Definition wfIP (ip : IP) : Prop :=
  octet (ip0 ip) /\ octet (ip1 ip) /\ octet (ip2 ip) /\ octet (ip3 ip).

Lemma IPToUint32_sum (ip : IP) :
  wfIP ip ->
  IPToUint32 ip = ip0 ip * 2 ^ 24 + ip1 ip * 2 ^ 16 + ip2 ip * 2 ^ 8 + ip3 ip.
Proof.
  unfold wfIP, octet, IPToUint32. intros (H0 & H1 & H2 & H3).
  rewrite (lor_shiftl_add 8) by lia.
  rewrite (lor_shiftl_add 16) by lia.
  rewrite (lor_shiftl_add 24) by lia.
  lia.
Qed.

Lemma IPToUint32_range (ip : IP) : wfIP ip -> 0 <= IPToUint32 ip < 2 ^ 32.
Proof.
  intros H. rewrite IPToUint32_sum by assumption.
  unfold wfIP, octet in H. lia.
Qed.

Lemma Uint32ToIP_wf (u : Z) : wfIP (Uint32ToIP u).
Proof.
  unfold wfIP, octet, Uint32ToIP, byte. simpl.
  repeat split; apply Z.mod_pos_bound; lia.
Qed.

Lemma IPToUint32_Uint32ToIP (u : Z) :
  0 <= u < 2 ^ 32 -> IPToUint32 (Uint32ToIP u) = u.
Proof.
  intros Hu. rewrite IPToUint32_sum by apply Uint32ToIP_wf.
  unfold Uint32ToIP, byte. simpl ip0; simpl ip1; simpl ip2; simpl ip3.
  rewrite !Z.shiftr_div_pow2 by lia.
  change (2 ^ 24) with 16777216. change (2 ^ 16) with 65536.
  change (2 ^ 8) with 256. change (2 ^ 32) with 4294967296 in Hu.
  Z.div_mod_to_equations. lia.
Qed.

Lemma Uint32ToIP_IPToUint32 (ip : IP) : wfIP ip -> Uint32ToIP (IPToUint32 ip) = ip.
Proof.
  intros H. rewrite IPToUint32_sum by assumption.
  destruct ip as [a b c d]. unfold wfIP, octet in H. simpl in *.
  unfold Uint32ToIP, byte.
  rewrite !Z.shiftr_div_pow2 by lia.
  change (2 ^ 24) with 16777216. change (2 ^ 16) with 65536.
  change (2 ^ 8) with 256.
  f_equal; Z.div_mod_to_equations; lia.
Qed.

Lemma Uint32ToIP_inj (u v : Z) :
  0 <= u < 2 ^ 32 -> 0 <= v < 2 ^ 32 -> Uint32ToIP u = Uint32ToIP v -> u = v.
Proof.
  intros Hu Hv H.
  rewrite <- (IPToUint32_Uint32ToIP u), <- (IPToUint32_Uint32ToIP v) by assumption.
  now rewrite H.
Qed.

(** The bits of a CIDR mask: ones in positions [32 - n .. 31]. *)
Lemma mask_bits_spec (n i : Z) :
  0 <= n <= 32 -> 0 <= i ->
  Z.testbit (mask_bits (CIDRMask n)) i = (32 - n <=? i) && (i <? 32).
Proof.
  intros Hn Hi. unfold mask_bits. simpl.
  rewrite Z.shiftl_spec by lia.
  destruct (Z.leb_spec (32 - n) i); simpl.
  - rewrite Z.testbit_ones_nonneg by lia.
    destruct (Z.ltb_spec (i - (32 - n)) n), (Z.ltb_spec i 32); auto; lia.
  - apply Z.testbit_neg_r. lia.
Qed.

Lemma mask_bits_range (n : Z) : 0 <= n <= 32 -> 0 <= mask_bits (CIDRMask n) < 2 ^ 32.
Proof.
  intros Hn. apply range_of_bits; [lia|]. intros i Hi.
  rewrite mask_bits_spec by lia.
  destruct (Z.ltb_spec i 32); [lia|]. apply andb_false_r.
Qed.

(** Masking keeps the network part: the quotient by [2^(32-n)]. *)
Lemma land_mask_bits (x n : Z) :
  0 <= n <= 32 -> 0 <= x < 2 ^ 32 ->
  Z.land x (mask_bits (CIDRMask n)) = (x / 2 ^ (32 - n)) * 2 ^ (32 - n).
Proof.
  intros Hn Hx.
  rewrite <- Z.shiftr_div_pow2, <- Z.shiftl_mul_pow2 by lia.
  apply Z.bits_inj'. intros i Hi.
  rewrite Z.land_spec, mask_bits_spec, Z.shiftl_spec by lia.
  destruct (Z.leb_spec (32 - n) i); simpl.
  - rewrite Z.shiftr_spec by lia. replace (i - (32 - n) + (32 - n)) with i by lia.
    destruct (Z.ltb_spec i 32).
    + apply andb_true_r.
    + rewrite (testbit_above 32 x i) by lia. reflexivity.
  - rewrite (Z.testbit_neg_r _ (i - (32 - n))) by lia. apply andb_false_r.
Qed.

Definition wfNet (n : IPNet) : Prop :=
  wfIP (net_IP n) /\ 0 <= Mask_Size (net_Mask n) <= 32.

(** A network in canonical form: the host part of its address is zero,
    as [ParseCIDR] and [GetNetwork] produce it. *)
Definition canonical (n : IPNet) : Prop :=
  wfNet n /\ IPToUint32 (net_IP n) mod 2 ^ (32 - Mask_Size (net_Mask n)) = 0.

Lemma Contains_spec (n : IPNet) (ip : IP) :
  wfNet n -> wfIP ip ->
  Contains n ip = true <->
  IPToUint32 (net_IP n) / 2 ^ (32 - Mask_Size (net_Mask n))
  = IPToUint32 ip / 2 ^ (32 - Mask_Size (net_Mask n)).
Proof.
  intros [Hip Hm] Hip'. unfold Contains.
  destruct n as [nip [k]]. simpl in *.
  rewrite !land_mask_bits by (try lia; now apply IPToUint32_range).
  rewrite Z.eqb_eq.
  assert (0 < 2 ^ (32 - k)) by (apply Z.pow_pos_nonneg; lia).
  split; intros He; [apply Z.mul_cancel_r in He; lia | now rewrite He].
Qed.

(** ** Decimal text: printing then reading *)

#[local] Arguments String.append !s1 s2 : simpl nomatch.

(** Reads a string made of digits only, as [dtoi] accumulates it. *)
Fixpoint decRead (s : string) (n : Z) : option Z :=
  match s with
  | EmptyString => Some n
  | String c s' =>
      if isDigit c then
        let n' := n * 10 + (code c - 48) in
        if big <=? n' then None else decRead s' n'
      else None
  end.

(** The rest of the text does not go on with a digit. *)
Definition stops (rest : string) : Prop :=
  match rest with
  | EmptyString => True
  | String c _ => isDigit c = false
  end.

Lemma dtoi_loop_digits (ds rest : string) (n v : Z) (i : nat) :
  decRead ds n = Some v -> stops rest -> (0 < i + String.length ds)%nat ->
  dtoi_loop (ds +:+ rest) n i = (v, (i + String.length ds)%nat, true).
Proof.
  revert n i. induction ds as [|c ds IH]; intros n i Hread Hstop Hlen; simpl in *.
  - injection Hread as <-. rewrite Nat.add_0_r in *.
    destruct rest as [|c r]; simpl in *.
    + destruct i; [lia|reflexivity].
    + rewrite Hstop. destruct i; [lia|reflexivity].
  - destruct (isDigit c); [|discriminate].
    destruct (big <=? n * 10 + (code c - 48)); [discriminate|].
    rewrite (IH _ (S i)) by (auto; lia). do 2 f_equal. lia.
Qed.

Lemma string_drop_app (s r : string) : string_drop (String.length s) (s +:+ r) = r.
Proof. induction s; simpl; auto. Qed.

Lemma string_take_app (s r : string) : string_take (String.length s) (s +:+ r) = s.
Proof. induction s as [|c s IH]; simpl; [now destruct r | now rewrite IH]. Qed.

Lemma string_app_nil_r (s : string) : (s +:+ "")%string = s.
Proof. induction s as [|c s IH]; simpl; [reflexivity | now rewrite IH]. Qed.

Lemma string_app_assoc (a b c : string) : ((a +:+ b) +:+ c = a +:+ (b +:+ c))%string.
Proof. induction a as [|x a IH]; simpl; [reflexivity | now rewrite IH]. Qed.

Lemma string_length_app (a b : string) :
  String.length (a +:+ b) = (String.length a + String.length b)%nat.
Proof. induction a as [|x a IH]; simpl; [reflexivity | now rewrite IH]. Qed.

Lemma IndexByteString_app (s r : string) (c : ascii) :
  IndexByteString s c = None ->
  IndexByteString (s +:+ r) c = (fun i => (String.length s + i)%nat) <$> IndexByteString r c.
Proof.
  induction s as [|x s IH]; simpl; intros H.
  - now destruct (IndexByteString r c).
  - destruct (Ascii.eqb x c); [discriminate|].
    destruct (IndexByteString s c); [discriminate|].
    rewrite IH by reflexivity. now destruct (IndexByteString r c).
Qed.

(** What the proofs need of the text of a small number: it reads back,
    it is not empty and it holds no slash. *)
Definition textOK (a : Z) : bool :=
  match decRead (uitoa a) 0 with
  | Some v => (v =? a) && Nat.ltb 0 (String.length (uitoa a))
              && bool_decide (IndexByteString (uitoa a) "/" = None)
  | None => false
  end.

Lemma textOK_below (bound : nat) (a : Z) :
  forallb textOK (map Z.of_nat (seq 0 bound)) = true ->
  0 <= a < Z.of_nat bound -> textOK a = true.
Proof.
  intros Hall Ha. rewrite forallb_forall in Hall. apply Hall.
  apply in_map_iff. exists (Z.to_nat a). split; [lia|].
  apply in_seq. lia.
Qed.

Lemma textOK_octet (a : Z) : octet a -> textOK a = true.
Proof.
  intros Ha. apply (textOK_below 256); [now vm_compute | exact Ha].
Qed.

Lemma textOK_spec (a : Z) :
  textOK a = true ->
  decRead (uitoa a) 0 = Some a /\ (0 < String.length (uitoa a))%nat
  /\ IndexByteString (uitoa a) "/" = None.
Proof.
  unfold textOK. destruct (decRead (uitoa a) 0) as [v|]; [|discriminate].
  rewrite !andb_true_iff, Z.eqb_eq, Nat.ltb_lt, bool_decide_eq_true.
  intros [[-> ?] ?]. auto.
Qed.

Lemma dtoi_uitoa (a : Z) (rest : string) :
  textOK a = true -> stops rest ->
  dtoi (uitoa a +:+ rest) = (a, String.length (uitoa a), true).
Proof.
  intros Hok Hstop. apply textOK_spec in Hok as (Hread & Hlen & _).
  unfold dtoi. now rewrite (dtoi_loop_digits _ _ 0 a 0).
Qed.

Lemma parseIPv4_loop_first (todo : nat) (a : Z) (rest : string) (p : list Z) :
  octet a -> stops rest ->
  parseIPv4_loop (S todo) 0 (uitoa a +:+ rest) p = parseIPv4_loop todo 1 rest (p ++ [a]).
Proof.
  intros Ha Hstop. pose proof (textOK_octet a Ha) as Hok.
  pose proof (textOK_spec a Hok) as (_ & Hlen & _).
  cbn [parseIPv4_loop Nat.ltb Nat.leb].
  rewrite string_length_app.
  destruct (Nat.eqb_spec (String.length (uitoa a) + String.length rest) 0); [lia|].
  rewrite dtoi_uitoa by assumption. cbn [negb orb].
  unfold octet in Ha. destruct (Z.ltb_spec 255 a); [lia|].
  now rewrite string_drop_app.
Qed.

Lemma parseIPv4_loop_next (todo i : nat) (a : Z) (rest : string) (p : list Z) :
  octet a -> stops rest ->
  parseIPv4_loop (S todo) (S i) (String "." (uitoa a +:+ rest)) p
  = parseIPv4_loop todo (S (S i)) rest (p ++ [a]).
Proof.
  intros Ha Hstop. pose proof (textOK_octet a Ha) as Hok.
  cbn [parseIPv4_loop Nat.ltb Nat.leb String.length Nat.eqb].
  rewrite dtoi_uitoa by assumption. cbn [negb orb].
  unfold octet in Ha. destruct (Z.ltb_spec 255 a); [lia|].
  now rewrite string_drop_app.
Qed.

Lemma char_app (c : ascii) (r : string) : (String c "" +:+ r)%string = String c r.
Proof. reflexivity. Qed.

Lemma parseIPv4_String (ip : IP) : wfIP ip -> parseIPv4 (IP_String ip) = Some ip.
Proof.
  destruct ip as [a b c d]. intros (Ha & Hb & Hc & Hd). simpl in *.
  unfold parseIPv4, IP_String. simpl ip0; simpl ip1; simpl ip2; simpl ip3.
  rewrite <- (string_app_nil_r (uitoa d)).
  rewrite !char_app.
  rewrite parseIPv4_loop_first by (auto; reflexivity).
  rewrite !parseIPv4_loop_next by (auto; reflexivity).
  reflexivity.
Qed.

Lemma IP_String_noSlash (ip : IP) : wfIP ip -> IndexByteString (IP_String ip) "/" = None.
Proof.
  destruct ip as [a b c d]. intros (Ha & Hb & Hc & Hd). simpl in *.
  unfold IP_String. simpl ip0; simpl ip1; simpl ip2; simpl ip3.
  pose proof (textOK_spec a (textOK_octet a Ha)) as (_ & _ & Sa).
  pose proof (textOK_spec b (textOK_octet b Hb)) as (_ & _ & Sb).
  pose proof (textOK_spec c (textOK_octet c Hc)) as (_ & _ & Sc).
  pose proof (textOK_spec d (textOK_octet d Hd)) as (_ & _ & Sd).
  rewrite !char_app.
  rewrite (IndexByteString_app (uitoa a)) by assumption. cbn [IndexByteString Ascii.eqb Bool.eqb].
  rewrite (IndexByteString_app (uitoa b)) by assumption. cbn [IndexByteString Ascii.eqb Bool.eqb].
  rewrite (IndexByteString_app (uitoa c)) by assumption. cbn [IndexByteString Ascii.eqb Bool.eqb].
  rewrite Sd. reflexivity.
Qed.

(** Reading the text of a network gives the network with its address
    masked. *)
Lemma ParseCIDR_String (n : IPNet) :
  wfNet n ->
  ParseCIDR (IPNet_String n) = Some (mkIPNet (IP_Mask (net_IP n) (net_Mask n)) (net_Mask n)).
Proof.
  destruct n as [ip [k]]. intros [Hip Hk]. simpl in *.
  unfold ParseCIDR, IPNet_String. simpl net_IP; simpl net_Mask; simpl Mask_Size.
  assert (Hok : textOK k = true) by (apply (textOK_below 33); [now vm_compute | lia]).
  pose proof (textOK_spec k Hok) as (Hread & Hlen & _).
  rewrite char_app.
  rewrite IndexByteString_app by now apply IP_String_noSlash.
  cbn [IndexByteString Ascii.eqb Bool.eqb fmap option_fmap option_map].
  rewrite Nat.add_0_r, string_take_app.
  replace (string_drop (S (String.length (IP_String ip))) (IP_String ip +:+ String "/" (uitoa k)))
    with (uitoa k).
  2:{ change (S (String.length (IP_String ip)))
        with (1 + String.length (IP_String ip))%nat.
      clear. induction (IP_String ip); simpl; auto. }
  rewrite parseIPv4_String by assumption.
  rewrite <- (string_app_nil_r (uitoa k)) at 1.
  rewrite dtoi_uitoa by (auto; reflexivity).
  rewrite Nat.eqb_refl. cbn [negb orb].
  destruct (Z.ltb_spec k 0); [lia|]. destruct (Z.ltb_spec 32 k); [lia|].
  reflexivity.
Qed.

Lemma land_mask_range (x k : Z) :
  0 <= k <= 32 -> 0 <= Z.land x (mask_bits (CIDRMask k)) < 2 ^ 32.
Proof.
  intros Hk. apply range_of_bits; [lia|]. intros i Hi.
  rewrite Z.land_spec, mask_bits_spec by lia.
  destruct (Z.ltb_spec i 32); [lia|]. now rewrite !andb_false_r.
Qed.

Lemma land_mask_low (x k : Z) :
  0 <= k <= 32 -> Z.land x (mask_bits (CIDRMask k)) mod 2 ^ (32 - k) = 0.
Proof.
  intros Hk. apply Z.bits_inj'. intros i Hi.
  rewrite Z.testbit_mod_pow2, Z.land_spec, mask_bits_spec, Z.bits_0 by lia.
  destruct (Z.ltb_spec i (32 - k)); [|reflexivity].
  destruct (Z.leb_spec (32 - k) i); [lia|]. simpl. now rewrite andb_false_r.
Qed.

Lemma IP_Mask_canonical (n : IPNet) :
  canonical n -> IP_Mask (net_IP n) (net_Mask n) = net_IP n.
Proof.
  destruct n as [ip [k]]. intros [[Hip Hk] Hlow]. simpl in *.
  unfold IP_Mask. rewrite land_mask_bits by (try lia; now apply IPToUint32_range).
  replace (IPToUint32 ip / 2 ^ (32 - k) * 2 ^ (32 - k)) with (IPToUint32 ip).
  - now apply Uint32ToIP_IPToUint32.
  - assert (0 < 2 ^ (32 - k)) by (apply Z.pow_pos_nonneg; lia).
    pose proof (Z.div_mod (IPToUint32 ip) (2 ^ (32 - k))). lia.
Qed.

Lemma ParseCIDR_String_canonical (n : IPNet) :
  canonical n -> ParseCIDR (IPNet_String n) = Some n.
Proof.
  intros Hn. rewrite ParseCIDR_String by apply Hn.
  rewrite IP_Mask_canonical by assumption. now destruct n.
Qed.

(** The map key determines the network. *)
Lemma IPNet_String_inj (n1 n2 : IPNet) :
  canonical n1 -> canonical n2 -> IPNet_String n1 = IPNet_String n2 -> n1 = n2.
Proof.
  intros H1 H2 He.
  apply ParseCIDR_String_canonical in H1, H2. rewrite He in H1. congruence.
Qed.

Lemma masked_canonical (ip : IP) (k : Z) :
  0 <= k <= 32 -> canonical (mkIPNet (IP_Mask ip (CIDRMask k)) (CIDRMask k)).
Proof.
  intros Hk. unfold canonical, wfNet, IP_Mask. simpl.
  split; [split; [apply Uint32ToIP_wf | lia]|].
  rewrite IPToUint32_Uint32ToIP by now apply land_mask_range.
  now apply land_mask_low.
Qed.

Lemma ParseCIDR_canonical (s : string) (n : IPNet) :
  ParseCIDR s = Some n -> canonical n.
Proof.
  unfold ParseCIDR.
  destruct (IndexByteString s "/") as [i|]; [|discriminate].
  destruct (parseIPv4 (string_take i s)) as [ip|]; [|discriminate].
  destruct (dtoi (string_drop (S i) s)) as [[k j] ok].
  destruct ok; cbn [negb orb]; [|discriminate].
  destruct (Nat.eqb j _); cbn [negb orb]; [|discriminate].
  destruct (Z.ltb_spec k 0); cbn [orb]; [discriminate|].
  destruct (Z.ltb_spec 32 k); [discriminate|].
  intros [= <-]. apply masked_canonical. lia.
Qed.

(** ** The layout of a configured allocator

    [p] is the prefix length of the pool, [h] the host bits and [s] the
    subnet bits. Either the subnet number is used as it is, or it is
    rotated left by [leftShift] inside its field of [s] bits. *)

Record layout (sna : SubnetAllocator) (p h s : Z) : Prop := mkLayout {
  lay_net : canonical (network sna);
  lay_p : Mask_Size (net_Mask (network sna)) = p;
  lay_h : hostBits sna = h;
  lay_range : 0 <= p /\ 1 <= h /\ 0 <= s /\ p + h + s = 32;
  lay_rot :
    (leftShift sna = 0 /\ rightShift sna = 0
     /\ leftMask sna = Z.ones 32 /\ rightMask sna = 0)
    \/ (0 < leftShift sna /\ 0 < rightShift sna
        /\ leftShift sna + rightShift sna = s
        /\ leftMask sna = Z.ones (h + s)
        /\ rightMask sna = Z.shiftl (Z.ones (leftShift sna)) h)
}.

Ltac u32 :=
  unfold U32.rem, U32.div, U32.sub, U32.add, U32.shl, U32.shr, U32.wrap, U32.modulus in *;
  change (2 ^ 32) with 4294967296 in *.

Lemma ones_wrap (k : Z) : 0 <= k <= 32 -> U32.sub (U32.shl 1 k) 1 = Z.ones k.
Proof.
  intros Hk. unfold U32.sub, U32.shl, U32.wrap, U32.modulus.
  rewrite Z.ones_equiv, Z.shiftl_mul_pow2, Z.mul_1_l by lia.
  destruct (Z.eq_dec k 32) as [->|Hne]; [reflexivity|].
  assert (0 < 2 ^ k) by (apply Z.pow_pos_nonneg; lia).
  assert (2 ^ k < 2 ^ 32) by (apply Z.pow_lt_mono_r; lia).
  rewrite (Z.mod_small (2 ^ k)) by lia. rewrite Z.mod_small by lia. lia.
Qed.

Lemma shiftl_ones_range (a h : Z) :
  0 <= a -> 0 <= h -> a + h <= 32 -> 0 <= Z.shiftl (Z.ones a) h < 2 ^ 32.
Proof.
  intros Ha Hh Hah. apply range_of_bits; [lia|]. intros i Hi.
  rewrite Z.shiftl_spec, Z.testbit_ones by lia.
  destruct (Z.ltb_spec (i - h) a); [lia|]. apply andb_false_r.
Qed.

Lemma NewSubnetAllocator_layout (text : string) (h : Z) (inUse : list string)
    (sna : SubnetAllocator) :
  0 <= h < 2 ^ 32 ->
  NewSubnetAllocator text h inUse = inr sna ->
  layout sna (Mask_Size (net_Mask (network sna))) h
         (32 - Mask_Size (net_Mask (network sna)) - h).
Proof.
  intros Hh. unfold NewSubnetAllocator.
  destruct (ParseCIDR text) as [netIP|] eqn:Hparse; [|discriminate].
  pose proof (ParseCIDR_canonical _ _ Hparse) as Hcan.
  destruct Hcan as [[Hip Hp] Hlow].
  set (p := Mask_Size (net_Mask netIP)) in *.
  destruct (Z.eqb_spec h 0) as [|Hh0]; [discriminate|].
  assert (Hw : U32.sub 32 (U32.wrap p) = 32 - p).
  { u32. Z.div_mod_to_equations. lia. }
  rewrite !Hw.
  destruct (Z.ltb_spec (32 - p) h) as [|Hle]; [discriminate|].
  assert (Hs : U32.sub (32 - p) h = 32 - p - h).
  { u32. Z.div_mod_to_equations. lia. }
  rewrite !Hs.
  set (s := 32 - p - h) in *.
  intros [= <-]. cbn [network hostBits leftShift rightShift leftMask rightMask].
  fold p. fold s.
  split; cbn [network hostBits leftShift rightShift leftMask rightMask];
    [split; [split|]; assumption | reflexivity | reflexivity | lia |].
  match goal with |- context [if ?b then _ else _] => destruct b eqn:Hrot end.
  - right. apply andb_true_iff in Hrot as [Hm Hd].
    apply negb_true_iff, Z.eqb_neq in Hm. apply negb_true_iff, Z.eqb_neq in Hd.
    change (2 ^ 32) with 4294967296 in *.
    unfold U32.rem, U32.div, U32.sub, U32.add, U32.wrap, U32.modulus in Hm, Hd.
    change (2 ^ 32) with 4294967296 in *.
    rewrite !(Z.mod_small (h - 1)), !(Z.mod_small (h + s)),
      !(Z.mod_small (h + s - 1)) in Hd by lia.
    assert (Hls : U32.sub 8 (U32.rem h 8) = 8 - h mod 8).
    { unfold U32.sub, U32.rem, U32.wrap, U32.modulus.
      change (2 ^ 32) with 4294967296.
      pose proof (Z.mod_pos_bound h 8). rewrite Z.mod_small; lia. }
    rewrite !Hls.
    assert (Hpos : 8 - h mod 8 < s).
    { revert Hd. Z.div_mod_to_equations. lia. }
    pose proof (Z.mod_pos_bound h 8 ltac:(lia)).
    assert (Hrs : U32.sub s (8 - h mod 8) = s - (8 - h mod 8)).
    { u32. Z.div_mod_to_equations. lia. }
    rewrite Hrs. repeat split; try lia.
    + rewrite ones_wrap by lia. f_equal. lia.
    + rewrite ones_wrap by lia. unfold U32.shl, U32.wrap, U32.modulus.
      change 4294967296 with (2 ^ 32).
      apply Z.mod_small. apply shiftl_ones_range; lia.
  - left. repeat split; reflexivity.
Qed.

(** ** The subnet number inside the address *)

(** The bits that [GetNetwork] ors into the base address. *)
Definition subnetField (sna : SubnetAllocator) (n : Z) : Z :=
  let shifted := U32.shl n (hostBits sna) in
  Z.lor (Z.land (U32.shl shifted (leftShift sna)) (leftMask sna))
        (Z.land (U32.shr shifted (rightShift sna)) (rightMask sna)).

(** Bit [i] of the field is bit [srcBit i] of the subnet number, and bit
    [j] of the subnet number lands at [dstBit j]. *)
Definition srcBit (sna : SubnetAllocator) (i : Z) : Z :=
  if i <? hostBits sna + leftShift sna
  then i - hostBits sna + rightShift sna
  else i - hostBits sna - leftShift sna.

Definition dstBit (sna : SubnetAllocator) (j : Z) : Z :=
  if j <? rightShift sna
  then j + hostBits sna + leftShift sna
  else j + hostBits sna - rightShift sna.

Ltac split_compare :=
  repeat match goal with
    | |- context [?a <? ?b] => destruct (Z.ltb_spec a b)
    | |- context [?a <=? ?b] => destruct (Z.leb_spec a b)
    end.

Ltac clear_bits n s :=
  repeat first
    [ match goal with
      | |- context [Z.testbit n ?a] => rewrite (Z.testbit_neg_r n a) by lia
      end
    | match goal with
      | |- context [Z.testbit n ?a] =>
          rewrite (testbit_above s n a) by first [assumption | lia]
      end ].

Ltac bit_of_number n s :=
  match goal with
  | |- Z.testbit n ?a = Z.testbit n ?b => f_equal; lia
  | |- Z.testbit n ?a = false =>
      first [ apply Z.testbit_neg_r; lia | apply (testbit_above s); [assumption | lia] ]
  | |- false = Z.testbit n ?a =>
      symmetry;
      first [ apply Z.testbit_neg_r; lia | apply (testbit_above s); [assumption | lia] ]
  | |- _ => reflexivity
  end.

Lemma subnetField_bits (sna : SubnetAllocator) (p h s n i : Z) :
  layout sna p h s -> 0 <= n < 2 ^ s -> 0 <= i ->
  Z.testbit (subnetField sna n) i
  = (h <=? i) && (i <? h + s) && Z.testbit n (srcBit sna i).
Proof.
  intros [_ _ Hh Hr Hrot] Hn Hi. unfold subnetField, srcBit. rewrite Hh.
  unfold U32.shl, U32.shr, U32.wrap, U32.modulus.
  destruct Hrot as [(-> & -> & -> & ->) | (Hl & Hrs & Hsum & -> & ->)].
  - rewrite Z.lor_spec, !Z.land_spec, Z.bits_0, andb_false_r, orb_false_r.
    rewrite !Z.testbit_mod_pow2, !Z.shiftl_spec, !Z.testbit_mod_pow2,
      !Z.shiftl_spec, Z.testbit_ones by lia.
    rewrite !Z.sub_0_r, !Z.add_0_r.
    split_compare; try lia; clear_bits n s; cbn [andb orb];
      rewrite ?andb_false_r, ?andb_true_r, ?orb_false_r; cbn [andb orb]; bit_of_number n s.
  - rewrite Z.lor_spec, !Z.land_spec.
    rewrite !Z.testbit_mod_pow2, !Z.shiftr_spec, !Z.shiftl_spec,
      !Z.testbit_mod_pow2, !Z.testbit_ones by lia.
    destruct (Z_lt_le_dec (i - leftShift sna) 0) as [Hneg|Hpos].
    + rewrite (Z.testbit_neg_r _ (i - leftShift sna)) by lia.
      rewrite Z.shiftl_spec by lia.
      split_compare; try lia; clear_bits n s; cbn [andb orb];
      rewrite ?andb_false_r, ?andb_true_r, ?orb_false_r; cbn [andb orb]; bit_of_number n s.
    + rewrite !Z.shiftl_spec by lia.
      split_compare; try lia; clear_bits n s; cbn [andb orb];
      rewrite ?andb_false_r, ?andb_true_r, ?orb_false_r; cbn [andb orb]; bit_of_number n s.
Qed.

Lemma dstBit_spec (sna : SubnetAllocator) (p h s j : Z) :
  layout sna p h s -> 0 <= j < s ->
  h <= dstBit sna j < h + s /\ srcBit sna (dstBit sna j) = j.
Proof.
  intros [_ _ Hh Hr Hrot] Hj. unfold srcBit, dstBit. rewrite Hh.
  destruct Hrot as [(-> & -> & _) | (Hl & Hrs & Hsum & _)];
    split_compare; lia.
Qed.

Lemma subnetField_inj (sna : SubnetAllocator) (p h s n1 n2 : Z) :
  layout sna p h s -> 0 <= n1 < 2 ^ s -> 0 <= n2 < 2 ^ s ->
  subnetField sna n1 = subnetField sna n2 -> n1 = n2.
Proof.
  intros Hlay H1 H2 He. apply Z.bits_inj'. intros j Hj.
  pose proof Hlay as [_ _ _ Hr _].
  destruct (Z_lt_le_dec j s) as [Hlt|Hge].
  - destruct (dstBit_spec sna p h s j Hlay ltac:(lia)) as [Hd Hsrc].
    pose proof (subnetField_bits sna p h s n1 (dstBit sna j) Hlay H1 ltac:(lia)) as B1.
    pose proof (subnetField_bits sna p h s n2 (dstBit sna j) Hlay H2 ltac:(lia)) as B2.
    rewrite Hsrc in B1, B2. rewrite He in B1. rewrite B1 in B2.
    destruct (Z.leb_spec h (dstBit sna j)); [|lia].
    destruct (Z.ltb_spec (dstBit sna j) (h + s)); [|lia].
    exact B2.
  - rewrite (testbit_above s n1 j), (testbit_above s n2 j) by (assumption || lia).
    reflexivity.
Qed.

Lemma canonical_low_bits (n : IPNet) (i : Z) :
  canonical n -> i < 32 - Mask_Size (net_Mask n) ->
  Z.testbit (IPToUint32 (net_IP n)) i = false.
Proof.
  intros [[_ Hk] Hlow] Hi.
  pose proof (Z.testbit_mod_pow2 (IPToUint32 (net_IP n)) (32 - Mask_Size (net_Mask n)) i
                ltac:(lia)) as Hb.
  rewrite Hlow, Z.bits_0 in Hb.
  destruct (Z.ltb_spec i (32 - Mask_Size (net_Mask n))); [|lia].
  now rewrite Hb.
Qed.

Lemma layout_numSubnetBits (sna : SubnetAllocator) (p h s : Z) :
  layout sna p h s -> numSubnetBits sna = s.
Proof.
  intros [_ Hp Hh Hr _]. unfold numSubnetBits. rewrite Hp, Hh.
  u32. Z.div_mod_to_equations. lia.
Qed.

Lemma layout_numSubnets (sna : SubnetAllocator) (p h s : Z) :
  layout sna p h s -> numSubnets sna = 2 ^ s.
Proof.
  intros Hlay. unfold numSubnets. rewrite (layout_numSubnetBits _ _ _ _ Hlay).
  destruct Hlay as [_ _ _ Hr _].
  unfold U32.shl, U32.wrap, U32.modulus.
  rewrite Z.shiftl_mul_pow2, Z.mul_1_l by lia.
  apply Z.mod_small. split; [apply Z.pow_nonneg; lia|].
  apply Z.pow_lt_mono_r; lia.
Qed.

(** The 32-bit address of candidate [n]. *)
Definition subnetAddr (sna : SubnetAllocator) (n : Z) : Z :=
  Z.lor (IPToUint32 (net_IP (network sna))) (subnetField sna n).

Lemma genSubnet_eq (sna : SubnetAllocator) (p h s n : Z) :
  layout sna p h s ->
  genSubnet sna n = mkIPNet (Uint32ToIP (subnetAddr sna n)) (CIDRMask (32 - h)).
Proof.
  intros Hlay. unfold genSubnet, subnetAddr, subnetField.
  rewrite (layout_numSubnetBits _ _ _ _ Hlay), Z.lor_assoc.
  destruct Hlay as [_ Hp Hh Hr _]. rewrite Hp. do 2 f_equal. lia.
Qed.

Lemma subnetAddr_bits (sna : SubnetAllocator) (p h s n i : Z) :
  layout sna p h s -> 0 <= n < 2 ^ s -> 0 <= i ->
  Z.testbit (subnetAddr sna n) i
  = if i <? h + s then (h <=? i) && Z.testbit n (srcBit sna i)
    else Z.testbit (IPToUint32 (net_IP (network sna))) i.
Proof.
  intros Hlay Hn Hi. unfold subnetAddr.
  rewrite Z.lor_spec, (subnetField_bits sna p h s) by assumption.
  destruct Hlay as [Hcan Hp Hh Hr _].
  destruct (Z.ltb_spec i (h + s)).
  - rewrite canonical_low_bits by (assumption || lia).
    now rewrite andb_true_r.
  - now rewrite andb_false_r, orb_false_r.
Qed.

Lemma subnetAddr_range (sna : SubnetAllocator) (p h s n : Z) :
  layout sna p h s -> 0 <= n < 2 ^ s -> 0 <= subnetAddr sna n < 2 ^ 32.
Proof.
  intros Hlay Hn. apply range_of_bits; [lia|]. intros i Hi.
  rewrite (subnetAddr_bits sna p h s) by (assumption || lia).
  destruct Hlay as [[[Hip _] _] _ _ Hr _].
  destruct (Z.ltb_spec i (h + s)); [lia|].
  apply (testbit_above 32); [now apply IPToUint32_range | lia].
Qed.

Lemma subnetAddr_inj (sna : SubnetAllocator) (p h s n1 n2 : Z) :
  layout sna p h s -> 0 <= n1 < 2 ^ s -> 0 <= n2 < 2 ^ s ->
  subnetAddr sna n1 = subnetAddr sna n2 -> n1 = n2.
Proof.
  intros Hlay H1 H2 He. apply (subnetField_inj sna p h s); try assumption.
  apply Z.bits_inj'. intros i Hi.
  rewrite !(subnetField_bits sna p h s) by assumption.
  pose proof (subnetAddr_bits sna p h s n1 i Hlay H1 Hi) as B1.
  pose proof (subnetAddr_bits sna p h s n2 i Hlay H2 Hi) as B2.
  rewrite He in B1. rewrite B1 in B2.
  destruct (Z.ltb_spec i (h + s)).
  - now rewrite andb_true_r.
  - now rewrite !andb_false_r.
Qed.

Lemma genSubnet_canonical (sna : SubnetAllocator) (p h s n : Z) :
  layout sna p h s -> 0 <= n < 2 ^ s -> canonical (genSubnet sna n).
Proof.
  intros Hlay Hn. rewrite (genSubnet_eq sna p h s) by assumption.
  pose proof (subnetAddr_range sna p h s n Hlay Hn) as Hrange.
  pose proof Hlay as [_ _ _ Hr _].
  unfold canonical, wfNet. simpl.
  split; [split; [apply Uint32ToIP_wf | lia]|].
  rewrite IPToUint32_Uint32ToIP by assumption.
  replace (32 - (32 - h)) with h by lia.
  apply Z.bits_inj'. intros i Hi.
  rewrite Z.testbit_mod_pow2, Z.bits_0 by lia.
  destruct (Z.ltb_spec i h); [|reflexivity]. simpl.
  rewrite (subnetAddr_bits sna p h s) by assumption.
  destruct (Z.ltb_spec i (h + s)); [|lia].
  destruct (Z.leb_spec h i); [lia|reflexivity].
Qed.

(** Different subnet numbers give different map keys. *)
Lemma genSubnet_String_inj (sna : SubnetAllocator) (p h s n1 n2 : Z) :
  layout sna p h s -> 0 <= n1 < 2 ^ s -> 0 <= n2 < 2 ^ s ->
  IPNet_String (genSubnet sna n1) = IPNet_String (genSubnet sna n2) -> n1 = n2.
Proof.
  intros Hlay H1 H2 He.
  apply IPNet_String_inj in He; try now apply (genSubnet_canonical sna p h s).
  rewrite !(genSubnet_eq sna p h s) in He by assumption.
  apply (f_equal net_IP) in He. cbn [net_IP] in He.
  apply Uint32ToIP_inj in He; try now apply (subnetAddr_range sna p h s).
  now apply (subnetAddr_inj sna p h s).
Qed.

(** Every candidate lies in the pool. *)
Lemma genSubnet_Contains (sna : SubnetAllocator) (p h s n : Z) :
  layout sna p h s -> 0 <= n < 2 ^ s ->
  Contains (network sna) (net_IP (genSubnet sna n)) = true.
Proof.
  intros Hlay Hn. rewrite (genSubnet_eq sna p h s) by assumption.
  pose proof (subnetAddr_range sna p h s n Hlay Hn) as Hrange.
  unfold Contains. simpl net_IP.
  rewrite IPToUint32_Uint32ToIP by assumption.
  apply Z.eqb_eq, Z.bits_inj'. intros i Hi.
  rewrite !Z.land_spec, (subnetAddr_bits sna p h s) by assumption.
  pose proof Hlay as [[[_ Hk] _] Hp _ Hr _].
  destruct (net_Mask (network sna)) as [k]. simpl in *. subst k.
  rewrite mask_bits_spec by lia.
  destruct (Z.ltb_spec i (h + s)); [|reflexivity].
  destruct (Z.leb_spec (32 - p) i); [lia|]. simpl. now rewrite !andb_false_r.
Qed.

(** ** The scan of [GetNetwork] *)

(** The map key of candidate [n]. *)
Definition key (sna : SubnetAllocator) (n : Z) : string :=
  IPNet_String (genSubnet sna n).

Definition taken (sna : SubnetAllocator) (n : Z) : bool :=
  mapGet (allocMap sna) (key sna n).

(** The candidate that iteration [k] of the scan looks at. *)
Definition cand (sna : SubnetAllocator) (s k : Z) : Z := (k + next sna) mod 2 ^ s.

Lemma pow2_divide_32 (s : Z) : 0 <= s <= 32 -> (2 ^ s | 2 ^ 32).
Proof.
  intros Hs. exists (2 ^ (32 - s)). rewrite <- Z.pow_add_r by lia. f_equal. lia.
Qed.

Lemma scan_index (sna : SubnetAllocator) (p h s i : Z) :
  layout sna p h s ->
  U32.rem (U32.add i (next sna)) (numSubnets sna) = cand sna s i.
Proof.
  intros Hlay. rewrite (layout_numSubnets _ _ _ _ Hlay).
  destruct Hlay as [_ _ _ Hr _].
  unfold U32.rem, U32.add, U32.wrap, U32.modulus, cand.
  apply Z.mod_mod_divide, pow2_divide_32. lia.
Qed.

Lemma cand_range (sna : SubnetAllocator) (s k : Z) : 0 <= s -> 0 <= cand sna s k < 2 ^ s.
Proof. intros Hs. apply Z.mod_pos_bound, Z.pow_pos_nonneg; lia. Qed.

Lemma pow2_le_31 (s : Z) : 0 <= s <= 31 -> 2 ^ s <= 2147483648.
Proof. intros Hs. change 2147483648 with (2 ^ 31). apply Z.pow_le_mono_r; lia. Qed.

Lemma GetNetwork_loop_spec (sna : SubnetAllocator) (p h s : Z) (todo : nat) (i : Z) :
  layout sna p h s -> 0 <= i -> i + Z.of_nat todo <= 2 ^ s ->
  (GetNetwork_loop todo i sna = (setNext sna 0, inl ErrSubnetAllocatorFull)
   /\ forall k, i <= k < i + Z.of_nat todo -> taken sna (cand sna s k) = true)
  \/ (exists k, i <= k < i + Z.of_nat todo
        /\ (forall k', i <= k' < k -> taken sna (cand sna s k') = true)
        /\ taken sna (cand sna s k) = false
        /\ GetNetwork_loop todo i sna
           = (setNext (setAlloc sna (key sna (cand sna s k)) true) (cand sna s k + 1),
              inr (genSubnet sna (cand sna s k)))).
Proof.
  intros Hlay. revert i. induction todo as [|todo IH]; intros i Hi Hbound.
  - left. split; [reflexivity | intros k Hk; lia].
  - cbn [GetNetwork_loop]. rewrite (scan_index sna p h s) by assumption.
    pose proof Hlay as [_ _ _ Hr _].
    pose proof (cand_range sna s i ltac:(lia)) as Hc.
    pose proof (pow2_le_31 s ltac:(lia)) as Hpow.
    fold (key sna (cand sna s i)). fold (taken sna (cand sna s i)).
    destruct (taken sna (cand sna s i)) eqn:Ht; cbn [negb].
    + assert (Hadd : U32.add i 1 = i + 1).
      { unfold U32.add, U32.wrap, U32.modulus. change (2 ^ 32) with 4294967296.
        apply Z.mod_small. lia. }
      rewrite Hadd.
      destruct (IH (i + 1) ltac:(lia) ltac:(lia)) as [[Hfull Hall] | (k & Hk & Hbefore & Hfree & Hres)].
      * left. split; [exact Hfull|]. intros k Hk.
        destruct (Z.eq_dec k i) as [->|]; [exact Ht | apply Hall; lia].
      * right. exists k.
        split; [lia|]. split; [|split; assumption].
        intros k' Hk'. destruct (Z.eq_dec k' i) as [->|]; [exact Ht | apply Hbefore; lia].
    + right. exists i.
      split; [lia|]. split; [intros k' Hk'; lia|]. split; [assumption|].
      assert (Hadd : U32.add (cand sna s i) 1 = cand sna s i + 1).
      { unfold U32.add, U32.wrap, U32.modulus. change (2 ^ 32) with 4294967296.
        apply Z.mod_small. lia. }
      now rewrite Hadd.
Qed.

(** What one call of [GetNetwork] does: either every subnet of the pool
    is taken, the cursor goes back to 0 and the call fails; or the first
    free candidate at or after the cursor, in cyclic order, is marked
    taken and returned, and the cursor moves just behind it. *)
Inductive GetNetwork_result (sna : SubnetAllocator) (s : Z)
  : SubnetAllocator * (Error + IPNet) -> Prop :=
  | GetNetwork_full :
      (forall n, 0 <= n < 2 ^ s -> taken sna n = true) ->
      GetNetwork_result sna s (setNext sna 0, inl ErrSubnetAllocatorFull)
  | GetNetwork_found (k : Z) :
      0 <= k < 2 ^ s ->
      (forall k', 0 <= k' < k -> taken sna (cand sna s k') = true) ->
      taken sna (cand sna s k) = false ->
      GetNetwork_result sna s
        (setNext (setAlloc sna (key sna (cand sna s k)) true) (cand sna s k + 1),
         inr (genSubnet sna (cand sna s k))).

Lemma cand_onto (sna : SubnetAllocator) (s n : Z) :
  0 <= s -> 0 <= n < 2 ^ s -> exists k, 0 <= k < 2 ^ s /\ cand sna s k = n.
Proof.
  intros Hs Hn. exists ((n - next sna) mod 2 ^ s).
  assert (0 < 2 ^ s) by (apply Z.pow_pos_nonneg; lia).
  split; [now apply Z.mod_pos_bound|].
  unfold cand. rewrite Zplus_mod_idemp_l.
  replace (n - next sna + next sna) with n by lia. now apply Z.mod_small.
Qed.

Lemma GetNetwork_spec (sna : SubnetAllocator) (p h s : Z) :
  layout sna p h s -> GetNetwork_result sna s (GetNetwork sna).
Proof.
  intros Hlay. unfold GetNetwork. rewrite (layout_numSubnets _ _ _ _ Hlay).
  pose proof Hlay as [_ _ _ Hr _].
  assert (0 < 2 ^ s) by (apply Z.pow_pos_nonneg; lia).
  destruct (GetNetwork_loop_spec sna p h s (Z.to_nat (2 ^ s)) 0 Hlay ltac:(lia) ltac:(lia))
    as [[-> Hall] | (k & Hk & Hbefore & Hfree & ->)].
  - constructor. intros n Hn.
    destruct (cand_onto sna s n ltac:(lia) Hn) as (k & Hk & <-).
    apply Hall. lia.
  - apply GetNetwork_found; [lia | intros; apply Hbefore; lia | assumption].
Qed.

(** ** Configuration and reachable states *)

(** The fields that no method writes. *)
Definition config (sna : SubnetAllocator) : IPNet * Z * Z * Z * Z * Z :=
  (network sna, hostBits sna, leftShift sna, leftMask sna, rightShift sna, rightMask sna).

Lemma config_fields (a b : SubnetAllocator) :
  config a = config b ->
  network a = network b /\ hostBits a = hostBits b /\ leftShift a = leftShift b
  /\ leftMask a = leftMask b /\ rightShift a = rightShift b /\ rightMask a = rightMask b.
Proof. unfold config. intros [= -> -> -> -> -> ->]. auto 10. Qed.

Lemma layout_config (a b : SubnetAllocator) (p h s : Z) :
  config a = config b -> layout a p h s -> layout b p h s.
Proof.
  intros Hc [H1 H2 H3 H4 H5].
  apply config_fields in Hc as (Hn & Hh & Hls & Hlm & Hrs & Hrm).
  split; rewrite <- ?Hn, <- ?Hh, <- ?Hls, <- ?Hlm, <- ?Hrs, <- ?Hrm; assumption.
Qed.

Lemma genSubnet_config (a b : SubnetAllocator) (n : Z) :
  config a = config b -> genSubnet a n = genSubnet b n.
Proof.
  intros Hc. apply config_fields in Hc as (Hn & Hh & Hls & Hlm & Hrs & Hrm).
  unfold genSubnet, numSubnetBits. now rewrite Hn, Hh, Hls, Hlm, Hrs, Hrm.
Qed.

Lemma key_config (a b : SubnetAllocator) (n : Z) :
  config a = config b -> key a n = key b n.
Proof. intros Hc. unfold key. now rewrite (genSubnet_config a b). Qed.

Lemma GetNetwork_loop_config (todo : nat) (i : Z) (sna : SubnetAllocator) :
  config (fst (GetNetwork_loop todo i sna)) = config sna.
Proof.
  revert i. induction todo as [|todo IH]; intros i; cbn [GetNetwork_loop].
  - reflexivity.
  - destruct (negb _); [reflexivity | apply IH].
Qed.

Lemma GetNetwork_config (sna : SubnetAllocator) :
  config (fst (GetNetwork sna)) = config sna.
Proof. apply GetNetwork_loop_config. Qed.

Lemma ReleaseNetwork_config (sna : SubnetAllocator) (ipnet : IPNet) :
  config (fst (ReleaseNetwork sna ipnet)) = config sna.
Proof.
  unfold ReleaseNetwork.
  destruct (negb (Contains _ _)); [reflexivity|].
  destruct (negb (mapGet _ _)); reflexivity.
Qed.

(** The states an allocator can be in: built by [NewSubnetAllocator] from
    a [uint32] host-bit count, then used through its two methods. *)
Inductive reachable : SubnetAllocator -> Prop :=
  | reach_new (text : string) (h : Z) (inUse : list string) (sna : SubnetAllocator) :
      0 <= h < 2 ^ 32 ->
      NewSubnetAllocator text h inUse = inr sna -> reachable sna
  | reach_get (sna : SubnetAllocator) :
      reachable sna -> reachable (fst (GetNetwork sna))
  | reach_release (sna : SubnetAllocator) (ipnet : IPNet) :
      reachable sna -> reachable (fst (ReleaseNetwork sna ipnet)).

Lemma reachable_layout (sna : SubnetAllocator) :
  reachable sna -> exists p h s, layout sna p h s.
Proof.
  induction 1 as [text h inUse sna Hh Hnew | sna _ (p & h & s & IH)
                 | sna ipnet _ (p & h & s & IH)].
  - eauto using NewSubnetAllocator_layout.
  - exists p, h, s. eapply layout_config; [|exact IH].
    symmetry. apply GetNetwork_config.
  - exists p, h, s. eapply layout_config; [|exact IH].
    symmetry. apply ReleaseNetwork_config.
Qed.

Lemma mapGet_insert (m : gmap string bool) (k k' : string) (b : bool) :
  mapGet (<[k := b]> m) k' = if decide (k = k') then b else mapGet m k'.
Proof.
  unfold mapGet. rewrite lookup_insert. now destruct (decide (k = k')).
Qed.

Lemma taken_insert (sna sna' : SubnetAllocator) (p h s n m : Z) (b : bool) :
  layout sna p h s -> 0 <= n < 2 ^ s -> 0 <= m < 2 ^ s ->
  config sna' = config sna ->
  allocMap sna' = <[key sna n := b]> (allocMap sna) ->
  taken sna' m = if decide (n = m) then b else taken sna m.
Proof.
  intros Hlay Hn Hm Hc Hmap. unfold taken.
  rewrite (key_config sna' sna) by assumption. rewrite Hmap, mapGet_insert.
  destruct (decide (n = m)) as [->|Hne].
  - now rewrite decide_True.
  - rewrite decide_False; [reflexivity|].
    intros He. apply Hne. now apply (genSubnet_String_inj sna p h s).
Qed.

Lemma NewSubnetAllocator_init (text : string) (h : Z) (inUse : list string)
    (sna : SubnetAllocator) :
  NewSubnetAllocator text h inUse = inr sna ->
  exists netIP, ParseCIDR text = Some netIP /\ network sna = netIP
    /\ hostBits sna = h /\ next sna = 0
    /\ allocMap sna = seedMap netIP inUse ∅.
Proof.
  unfold NewSubnetAllocator.
  destruct (ParseCIDR text) as [netIP|]; [|discriminate].
  destruct (h =? 0); [discriminate|].
  destruct (_ <? h); [discriminate|].
  intros [= <-]. exists netIP. auto.
Qed.

(** ** Filling an empty pool *)

(** Exactly the subnets of number below [k] are taken, and the cursor is
    at [k]. *)
Definition filled (sna : SubnetAllocator) (s k : Z) : Prop :=
  next sna = k /\ forall n, 0 <= n < 2 ^ s -> taken sna n = (n <? k).

Lemma GetNetwork_filled (sna : SubnetAllocator) (p h s k : Z) :
  layout sna p h s -> filled sna s k -> 0 <= k < 2 ^ s ->
  exists sna', GetNetwork sna = (sna', inr (genSubnet sna k))
    /\ filled sna' s (k + 1) /\ config sna' = config sna.
Proof.
  intros Hlay [Hnext Htaken] Hk.
  pose proof Hlay as [_ _ _ Hr _].
  assert (Hfree : taken sna k = false).
  { rewrite Htaken by lia. apply Z.ltb_irrefl. }
  assert (Hc0 : cand sna s 0 = k).
  { unfold cand. rewrite Hnext. apply Z.mod_small. lia. }
  pose proof (GetNetwork_spec sna p h s Hlay) as Hspec.
  remember (GetNetwork sna) as r eqn:Heq.
  destruct Hspec as [Hall | kk Hkk Hbefore Hfree'].
  - rewrite Hall in Hfree by lia. discriminate.
  - destruct (Z.eq_dec kk 0) as [->|Hne].
    2:{ rewrite <- Hc0, Hbefore in Hfree by lia. discriminate. }
    rewrite Hc0. eexists. split; [reflexivity|].
    split; [|reflexivity].
    split; [reflexivity|]. intros n Hn.
    rewrite (taken_insert sna (setNext (setAlloc sna (key sna k) true) (k + 1))
               p h s k n true Hlay Hk Hn eq_refl eq_refl).
    rewrite Htaken by lia.
    destruct (decide (k = n)), (Z.ltb_spec n (k + 1)), (Z.ltb_spec n k);
      try lia; reflexivity.
Qed.

Lemma GetNetworks_filled (j : nat) (sna : SubnetAllocator) (p h s k : Z) :
  layout sna p h s -> filled sna s k -> 0 <= k -> k + Z.of_nat j <= 2 ^ s ->
  exists sna',
    GetNetworks j sna
    = (sna', map (fun i => inr (genSubnet sna (k + Z.of_nat i))) (seq 0 j))
    /\ filled sna' s (k + Z.of_nat j) /\ config sna' = config sna.
Proof.
  revert sna k. induction j as [|j IH]; intros sna k Hlay Hfill Hk Hbound.
  - exists sna. cbn [GetNetworks seq map]. rewrite Z.add_0_r. auto.
  - destruct (GetNetwork_filled sna p h s k Hlay Hfill ltac:(lia))
      as (sna1 & Hget & Hfill1 & Hc1).
    assert (Hlay1 : layout sna1 p h s) by (eapply layout_config; [symmetry|]; eassumption).
    destruct (IH sna1 (k + 1) Hlay1 Hfill1 ltac:(lia) ltac:(lia))
      as (sna2 & Hrun & Hfill2 & Hc2).
    exists sna2. cbn [GetNetworks]. rewrite Hget, Hrun.
    split; [|split].
    + f_equal. cbn [seq map]. rewrite Z.add_0_r. f_equal.
      rewrite <- seq_shift, map_map. apply map_ext. intros i.
      rewrite (genSubnet_config sna1 sna) by assumption. do 2 f_equal. lia.
    + replace (k + Z.of_nat (S j)) with (k + 1 + Z.of_nat j) by lia. exact Hfill2.
    + congruence.
Qed.

Lemma NoDup_map_seq {A : Type} (f : nat -> A) (a n : nat) :
  (forall i j, (a <= i < a + n)%nat -> (a <= j < a + n)%nat -> f i = f j -> i = j) ->
  NoDup (map f (seq a n)).
Proof.
  revert a. induction n as [|n IH]; intros a Hinj; cbn [seq map].
  - constructor.
  - constructor.
    + intros Hin. apply list_elem_of_In, in_map_iff in Hin as (j & He & Hj).
      apply in_seq in Hj. apply Hinj in He; lia.
    + apply IH. intros i j Hi Hj. apply Hinj; lia.
Qed.

(** * The claims *)

(** The text of a result of [GetNetwork], for reading lists of results. *)
Definition resultText (r : Error + IPNet) : string :=
  match r with
  | inr subnet => IPNet_String subnet
  | inl _ => "error"
  end.

(** C1. Over pool 10.1.0.0/16 with 6 host bits and nothing preallocated,
    the first 256 calls of [GetNetwork] return 10.1.0.0/26, 10.1.1.0/26,
    ..., 10.1.255.0/26 in that order, and none of them is a subnet
    10.1.x.64/26. *)
Theorem C1_rotation_example :
  let sna0 :=
    {| network := mkIPNet (IPv4 10 1 0 0) (CIDRMask 16); hostBits := 6;
       leftShift := 2; leftMask := 0xFFFF; rightShift := 8; rightMask := 0xC0;
       next := 0; allocMap := ∅ |} in
  let results := snd (GetNetworks 256 sna0) in
  NewSubnetAllocator "10.1.0.0/16" 6 [] = inr sna0
  /\ results
     = map (fun x => inr (mkIPNet (IPv4 10 1 (Z.of_nat x) 0) (CIDRMask 26))) (seq 0 256)
  /\ map resultText results
     = map (fun x => ("10.1." +:+ uitoa (Z.of_nat x) +:+ ".0/26")%string) (seq 0 256)
  /\ (forall x, ~ In (inr (mkIPNet (IPv4 10 1 x 64) (CIDRMask 26))) results).
Proof.
  intros sna0 results.
  assert (Hres : results
     = map (fun x => inr (mkIPNet (IPv4 10 1 (Z.of_nat x) 0) (CIDRMask 26))) (seq 0 256))
    by (vm_compute; reflexivity).
  split; [vm_compute; reflexivity|].
  split; [exact Hres|].
  split; [vm_compute; reflexivity|].
  intros x Hin. rewrite Hres in Hin.
  apply in_map_iff in Hin as (i & Heq & _). discriminate Heq.
Qed.

(** C2. An allocator built with nothing preallocated has
    [N = 2^subnetBits] subnets: [N] calls of [GetNetwork] in a row all
    succeed with pairwise distinct subnets, the next call fails with
    [ErrSubnetAllocatorFull] and leaves the cursor at 0, and once one of
    the subnets is released the next call succeeds again, with a subnet
    of the pool (the released one). *)
Theorem C2_exhaustion (text : string) (h : Z) (sna0 : SubnetAllocator) :
  0 <= h < 2 ^ 32 ->
  NewSubnetAllocator text h [] = inr sna0 ->
  exists (subnets : list IPNet) (snaN : SubnetAllocator),
    numSubnets sna0 = 2 ^ numSubnetBits sna0
    /\ GetNetworks (Z.to_nat (numSubnets sna0)) sna0 = (snaN, map inr subnets)
    /\ Z.of_nat (length subnets) = numSubnets sna0
    /\ NoDup subnets
    /\ GetNetwork snaN = (setNext snaN 0, inl ErrSubnetAllocatorFull)
    /\ next (fst (GetNetwork snaN)) = 0
    /\ forall S, In S subnets ->
         exists sna1 sna2,
           ReleaseNetwork (setNext snaN 0) S = (sna1, None)
           /\ GetNetwork sna1 = (sna2, inr S)
           /\ Contains (network sna0) (net_IP S) = true
           /\ net_Mask S = CIDRMask (32 - h).
Proof.
  intros Hh Hnew.
  pose proof (NewSubnetAllocator_layout _ _ _ _ Hh Hnew) as Hlay.
  set (p := Mask_Size (net_Mask (network sna0))) in *.
  set (s := 32 - p - h) in *.
  pose proof Hlay as [_ _ _ Hr _].
  pose proof (layout_numSubnets _ _ _ _ Hlay) as HN.
  pose proof (layout_numSubnetBits _ _ _ _ Hlay) as Hbits.
  assert (Hpos : 0 < 2 ^ s) by (apply Z.pow_pos_nonneg; lia).
  assert (Hfill0 : filled sna0 s 0).
  { destruct (NewSubnetAllocator_init _ _ _ _ Hnew) as (netIP & _ & _ & _ & Hnext & Hmap).
    split; [exact Hnext|]. intros n Hn. unfold taken. rewrite Hmap. cbn [seedMap].
    unfold mapGet. rewrite lookup_empty. cbn [default].
    destruct (Z.ltb_spec n 0); [lia | reflexivity]. }
  destruct (GetNetworks_filled (Z.to_nat (2 ^ s)) sna0 p h s 0 Hlay Hfill0 ltac:(lia) ltac:(lia))
    as (snaN & Hrun & HfillN & HcN).
  rewrite Z.add_0_l, Z2Nat.id in HfillN by lia.
  assert (HlayN : layout snaN p h s) by (eapply layout_config; [symmetry|]; eassumption).
  set (subnets := map (fun i => genSubnet sna0 (0 + Z.of_nat i)) (seq 0 (Z.to_nat (2 ^ s)))).
  assert (Hfull : GetNetwork snaN = (setNext snaN 0, inl ErrSubnetAllocatorFull)).
  { pose proof (GetNetwork_spec snaN p h s HlayN) as Hspec.
    remember (GetNetwork snaN) as r eqn:Heq.
    destruct Hspec as [Hall | kk Hkk Hbefore Hfree]; [reflexivity|].
    destruct HfillN as [_ Htaken].
    pose proof (cand_range snaN s kk ltac:(lia)) as Hc.
    rewrite Htaken in Hfree by lia.
    destruct (Z.ltb_spec (cand snaN s kk) (2 ^ s)); [discriminate | lia]. }
  exists subnets, snaN.
  split; [congruence|].
  split; [rewrite HN, Hrun; unfold subnets; now rewrite map_map|].
  split; [unfold subnets; rewrite length_map, length_seq, HN; lia|].
  split.
  { unfold subnets. apply NoDup_map_seq. intros i j Hi Hj He.
    apply (f_equal IPNet_String) in He.
    apply (genSubnet_String_inj sna0 p h s) in He; try assumption; lia. }
  split; [exact Hfull|].
  split; [now rewrite Hfull|].
  intros S HS. unfold subnets in HS.
  apply in_map_iff in HS as (j & <- & Hj). apply in_seq in Hj.
  rewrite Z.add_0_l.
  set (n := Z.of_nat j).
  assert (Hn : 0 <= n < 2 ^ s) by lia.
  set (st := setNext snaN 0).
  assert (Hcst : config st = config sna0) by exact HcN.
  assert (Hlayst : layout st p h s)
    by (apply (layout_config snaN); [reflexivity | exact HlayN]).
  assert (Hkey : IPNet_String (genSubnet sna0 n) = key st n).
  { unfold key. now rewrite (genSubnet_config st sna0). }
  assert (Htk : forall m, 0 <= m < 2 ^ s -> taken st m = true).
  { intros m Hm. destruct HfillN as [_ Htaken].
    change (taken st m) with (taken snaN m). rewrite Htaken by lia.
    destruct (Z.ltb_spec m (2 ^ s)); [reflexivity | lia]. }
  set (sna1 := setAlloc st (key st n) false).
  assert (Hrel : ReleaseNetwork st (genSubnet sna0 n) = (sna1, None)).
  { unfold ReleaseNetwork.
    rewrite <- (genSubnet_config st sna0) by assumption.
    rewrite (genSubnet_Contains st p h s) by assumption. cbn [negb].
    fold (key st n). fold (taken st n). rewrite Htk by assumption. reflexivity. }
  assert (Hlay1 : layout sna1 p h s)
    by (apply (layout_config st); [reflexivity | exact Hlayst]).
  assert (Htk1 : forall m, 0 <= m < 2 ^ s ->
                   taken sna1 m = if decide (n = m) then false else true).
  { intros m Hm.
    rewrite (taken_insert st sna1 p h s n m false) by (assumption || reflexivity).
    rewrite Htk by assumption. reflexivity. }
  exists sna1. 
  pose proof (GetNetwork_spec sna1 p h s Hlay1) as Hspec.
  remember (GetNetwork sna1) as r eqn:Heq.
  destruct Hspec as [Hall | kk Hkk Hbefore Hfree].
  { specialize (Hall n Hn). rewrite Htk1, decide_True in Hall by auto. discriminate. }
  pose proof (cand_range sna1 s kk ltac:(lia)) as Hc.
  rewrite Htk1 in Hfree by assumption.
  destruct (decide (n = cand sna1 s kk)) as [Hnk|]; [|discriminate].
  rewrite <- Hnk.
  eexists. split; [exact Hrel|].
  split; [f_equal; f_equal; apply genSubnet_config; exact Hcst|].
  split.
  - apply (genSubnet_Contains sna0 p h s); assumption.
  - rewrite (genSubnet_eq sna0 p h s) by assumption. reflexivity.
Qed.

(** What a scan does to the map, whatever the configuration: nothing
    when it fails, and one key that read [false] is set when it
    succeeds. *)
Lemma GetNetwork_loop_map (todo : nat) (i : Z) (sna sna' : SubnetAllocator)
    (r : Error + IPNet) :
  GetNetwork_loop todo i sna = (sna', r) ->
  (r = inl ErrSubnetAllocatorFull /\ allocMap sna' = allocMap sna /\ next sna' = 0)
  \/ (exists subnet n, r = inr subnet /\ subnet = genSubnet sna n
        /\ mapGet (allocMap sna) (IPNet_String subnet) = false
        /\ allocMap sna' = <[IPNet_String subnet := true]> (allocMap sna)
        /\ next sna' = U32.add n 1 /\ n = U32.rem n (numSubnets sna)).
Proof.
  revert i. induction todo as [|todo IH]; intros i; cbn [GetNetwork_loop].
  - intros [= <- <-]. left. auto.
  - destruct (mapGet _ _) eqn:Hget; cbn [negb].
    + apply IH.
    + intros [= <- <-]. right. eexists _, _.
      repeat split; try reflexivity; try assumption.
      unfold U32.rem. now rewrite Zmod_mod.
Qed.


(** C4. [ReleaseNetwork] checks in this order: a subnet whose address is
    not in the pool's network fails with [ErrNotInNetwork]; a subnet
    whose canonical text is missing from the allocation map, or is there
    but marked free, fails with [ErrAlreadyAvailable]; otherwise the
    entry is marked free. In every case the keys of the map stay the
    same: no entry is removed. *)
Theorem C4_release_cases (sna : SubnetAllocator) (ipnet : IPNet) :
  (Contains (network sna) (net_IP ipnet) = false ->
     ReleaseNetwork sna ipnet = (sna, Some ErrNotInNetwork))
  /\ (Contains (network sna) (net_IP ipnet) = true ->
      (allocMap sna !! IPNet_String ipnet = None
       \/ allocMap sna !! IPNet_String ipnet = Some false) ->
      ReleaseNetwork sna ipnet = (sna, Some ErrAlreadyAvailable))
  /\ (Contains (network sna) (net_IP ipnet) = true ->
      allocMap sna !! IPNet_String ipnet = Some true ->
      snd (ReleaseNetwork sna ipnet) = None
      /\ allocMap (fst (ReleaseNetwork sna ipnet)) !! IPNet_String ipnet = Some false
      /\ (forall k, k <> IPNet_String ipnet ->
            allocMap (fst (ReleaseNetwork sna ipnet)) !! k = allocMap sna !! k)
      /\ next (fst (ReleaseNetwork sna ipnet)) = next sna)
  /\ dom (allocMap (fst (ReleaseNetwork sna ipnet))) = dom (allocMap sna).
Proof.
  unfold ReleaseNetwork, mapGet.
  destruct (Contains (network sna) (net_IP ipnet)); cbn [negb].
  - split; [discriminate|].
    split; [intros _ [-> | ->]; reflexivity|].
    destruct (allocMap sna !! IPNet_String ipnet) as [[|]|] eqn:Hlook;
      cbn [default from_option id negb fst snd].
    + split.
      * intros _ _. cbn [setAlloc allocMap next].
        split; [reflexivity|]. split; [apply lookup_insert_eq|].
        split; [|reflexivity]. intros k Hk. now apply lookup_insert_ne.
      * cbn [setAlloc allocMap]. apply dom_insert_lookup_L. rewrite Hlook. eauto.
    + split; [discriminate | reflexivity].
    + split; [discriminate | reflexivity].
  - split; [reflexivity|]. split; [discriminate|]. split; [discriminate | reflexivity].
Qed.

Lemma NewSubnetAllocator_hostBitsCheck (text : string) (h : Z) (inUse : list string)
    (netIP : IPNet) (err : Error) :
  ParseCIDR text = Some netIP ->
  NewSubnetAllocator text h inUse = inl err
  <-> hostBitsCheck (Mask_Size (net_Mask netIP)) h = Some err.
Proof.
  intros Hparse. unfold NewSubnetAllocator, hostBitsCheck. rewrite Hparse.
  destruct (h =? 0); [split; intros [= <-]; reflexivity|].
  destruct (_ <? h); [split; intros [= <-]; reflexivity|].
  split; discriminate.
Qed.

(** C5, at the failing input: a pool whose prefix is longer than 32 bits,
    as the IPv6 pool fd00::/64, which [net.ParseCIDR] accepts. The tests
    of [NewSubnetAllocator] on the host-bit count are [hostBitsCheck] on
    the prefix length of the parsed pool. For a prefix length between 33
    and 128, [32 - uint32(netMaskSize)] wraps around to
    [2^32 + 32 - netMaskSize], so the tests let every host-bit count from
    1 to [2^32 - 97] through although it is larger than
    [32 - netMaskSize]: the constructor returns an allocator where the
    claim has it fail. *)
Theorem C5_check_wraps_beyond_32 (netMaskSize hostBits : Z) :
  32 < netMaskSize <= 128 -> 0 < hostBits < 2 ^ 32 - 96 ->
  hostBits > 32 - netMaskSize
  /\ U32.sub 32 (U32.wrap netMaskSize) = 2 ^ 32 + 32 - netMaskSize
  /\ hostBitsCheck netMaskSize hostBits = None
  /\ (forall text inUse netIP err,
        ParseCIDR text = Some netIP ->
        NewSubnetAllocator text hostBits inUse = inl err
        <-> hostBitsCheck (Mask_Size (net_Mask netIP)) hostBits = Some err).
Proof.
  intros Hn Hh. change (2 ^ 32) with 4294967296 in *.
  assert (Hw : U32.sub 32 (U32.wrap netMaskSize) = 4294967296 + 32 - netMaskSize).
  { u32. Z.div_mod_to_equations. lia. }
  split; [lia|]. split; [exact Hw|]. split.
  - unfold hostBitsCheck. rewrite Hw.
    destruct (Z.eqb_spec hostBits 0); [lia|].
    destruct (Z.ltb_spec (4294967296 + 32 - netMaskSize) hostBits); [lia | reflexivity].
  - intros text inUse netIP err. apply NewSubnetAllocator_hostBitsCheck.
Qed.

(** ** Seeding and sequences of calls *)

(** The preallocated text [entry] is valid for the pool and is recorded
    under key [k]. *)
Definition recorded (netIP : IPNet) (inUse : list string) (k : string) : Prop :=
  exists entry nIp,
    In entry inUse /\ ParseCIDR entry = Some nIp
    /\ Contains netIP (net_IP nIp) = true /\ IPNet_String nIp = k.

Lemma seedMap_keeps (netIP : IPNet) (inUse : list string) (amap : gmap string bool)
    (k : string) :
  amap !! k = Some true -> seedMap netIP inUse amap !! k = Some true.
Proof.
  revert amap. induction inUse as [|entry rest IH]; intros amap Hk; cbn [seedMap].
  - exact Hk.
  - destruct (ParseCIDR entry) as [nIp|]; [|now apply IH].
    destruct (Contains netIP (net_IP nIp)); cbn [negb]; [|now apply IH].
    apply IH. destruct (decide (IPNet_String nIp = k)) as [->|Hne].
    + apply lookup_insert_eq.
    + now rewrite lookup_insert_ne.
Qed.

Lemma seedMap_recorded (netIP : IPNet) (inUse : list string) (amap : gmap string bool)
    (k : string) :
  recorded netIP inUse k -> seedMap netIP inUse amap !! k = Some true.
Proof.
  revert amap. induction inUse as [|entry rest IH];
    intros amap (e & nIp & Hin & Hparse & Hc & Hk).
  - destruct Hin.
  - cbn [seedMap]. destruct Hin as [->|Hin].
    + rewrite Hparse, Hc. cbn [negb]. apply seedMap_keeps. rewrite Hk.
      apply lookup_insert_eq.
    + assert (Hrec : recorded netIP rest k) by (exists e, nIp; auto).
      destruct (ParseCIDR entry) as [n'|]; [|now apply IH].
      destruct (negb (Contains netIP (net_IP n'))); now apply IH.
Qed.

Lemma seedMap_lookup (netIP : IPNet) (inUse : list string) (amap : gmap string bool)
    (k : string) (b : bool) :
  seedMap netIP inUse amap !! k = Some b ->
  amap !! k = Some b \/ (b = true /\ recorded netIP inUse k).
Proof.
  revert amap. induction inUse as [|entry rest IH]; intros amap; cbn [seedMap].
  - auto.
  - assert (Hweak : recorded netIP rest k -> recorded netIP (entry :: rest) k).
    { intros (e & nIp & Hin & H). exists e, nIp. split; [now right | exact H]. }
    destruct (ParseCIDR entry) as [nIp|] eqn:Hparse.
    2:{ intros H. apply IH in H as [H | [-> H]]; auto. }
    destruct (Contains netIP (net_IP nIp)) eqn:Hc; cbn [negb].
    2:{ intros H. apply IH in H as [H | [-> H]]; auto. }
    intros H. apply IH in H as [H | [-> H]]; [|auto].
    destruct (decide (IPNet_String nIp = k)) as [He|Hne].
    + rewrite He, lookup_insert_eq in H. injection H as <-.
      right. split; [reflexivity|]. exists entry, nIp. split; [now left | auto].
    + rewrite lookup_insert_ne in H by assumption. auto.
Qed.

Inductive Op : Type :=
  | OpGet
  | OpRelease (ipnet : IPNet).

(** One call on the allocator, with the subnet it hands out, if any. *)
Definition step (sna : SubnetAllocator) (op : Op) : SubnetAllocator * list IPNet :=
  match op with
  | OpGet =>
      let '(sna', r) := GetNetwork sna in
      (sna', match r with inr subnet => [subnet] | inl _ => [] end)
  | OpRelease ipnet => (fst (ReleaseNetwork sna ipnet), [])
  end.

(** A sequence of calls, with the subnets handed out, in order. *)
Fixpoint run (ops : list Op) (sna : SubnetAllocator) : SubnetAllocator * list IPNet :=
  match ops with
  | [] => (sna, [])
  | op :: rest =>
      let '(sna1, out1) := step sna op in
      let '(sna2, out2) := run rest sna1 in
      (sna2, out1 ++ out2)
  end.

Lemma run_never_returns_taken (ops : list Op) (sna : SubnetAllocator) (k : string) :
  mapGet (allocMap sna) k = true ->
  (forall ipnet, In (OpRelease ipnet) ops -> IPNet_String ipnet <> k) ->
  forall S, In S (snd (run ops sna)) -> IPNet_String S <> k.
Proof.
  revert sna. induction ops as [|op rest IH]; intros sna Hk Hrel S HS.
  - destruct HS.
  - cbn [run] in HS.
    destruct (step sna op) as [sna1 out1] eqn:Hstep.
    destruct (run rest sna1) as [sna2 out2] eqn:Hrun.
    cbn [snd] in HS. apply in_app_or in HS.
    assert (Hrest : forall ipnet, In (OpRelease ipnet) rest -> IPNet_String ipnet <> k)
      by (intros ipnet Hin; apply Hrel; now right).
    assert (Hkeep : mapGet (allocMap sna1) k = true
                    /\ forall S', In S' out1 -> IPNet_String S' <> k).
    { destruct op as [|ipnet]; cbn [step] in Hstep.
      - destruct (GetNetwork sna) as [sna' r] eqn:Hget. injection Hstep as <- <-.
        apply GetNetwork_loop_map in Hget
            as [(-> & Hmap & _) | (subnet & n & -> & _ & Hfree & Hmap & _)].
        + rewrite Hmap. split; [exact Hk | intros S' []].
        + assert (Hne : IPNet_String subnet <> k) by (intros <-; congruence).
          split.
          * rewrite Hmap, mapGet_insert, decide_False by assumption. exact Hk.
          * intros S' [<- | []]. exact Hne.
      - injection Hstep as <- <-. split; [|intros S' []].
        assert (Hne : IPNet_String ipnet <> k) by (apply Hrel; now left).
        unfold ReleaseNetwork.
        destruct (negb (Contains _ _)); [exact Hk|].
        destruct (negb (mapGet _ _)); [exact Hk|].
        cbn [fst setAlloc allocMap].
        rewrite mapGet_insert, decide_False by assumption. exact Hk. }
    destruct Hkeep as [Hk1 Hout1].
    destruct HS as [HS | HS]; [now apply Hout1|].
    apply (IH sna1 Hk1 Hrest S). now rewrite Hrun.
Qed.


Lemma ReleaseNetwork_next (sna : SubnetAllocator) (ipnet : IPNet) :
  next (fst (ReleaseNetwork sna ipnet)) = next sna.
Proof.
  unfold ReleaseNetwork.
  destruct (negb (Contains _ _)); [reflexivity|].
  destruct (negb (mapGet _ _)); reflexivity.
Qed.

Lemma numSubnets_config (a b : SubnetAllocator) :
  config a = config b -> numSubnets a = numSubnets b.
Proof.
  intros Hc. apply config_fields in Hc as (Hn & Hh & _).
  unfold numSubnets, numSubnetBits. now rewrite Hn, Hh.
Qed.

(** C7, as the code has it. The cursor is stored unreduced: after a
    successful [GetNetwork] it is the number of the subnet handed out
    plus one, so it lies between 0 and the number of subnets
    [2^subnetBits], both included; the scan reduces it modulo that
    number when it reads it. *)
Theorem C7_cursor_bound (sna : SubnetAllocator) :
  reachable sna ->
  0 <= next sna <= numSubnets sna
  /\ numSubnets sna = 2 ^ numSubnetBits sna.
Proof.
  intros Hreach.
  destruct (reachable_layout sna Hreach) as (p & h & s & Hlay).
  rewrite (layout_numSubnets _ _ _ _ Hlay), (layout_numSubnetBits _ _ _ _ Hlay).
  split; [|reflexivity].
  pose proof Hlay as [_ _ _ Hr _].
  assert (Hpos : 0 < 2 ^ s) by (apply Z.pow_pos_nonneg; lia).
  clear Hr. revert p h s Hlay Hpos.
  induction Hreach as [text h0 inUse sna Hh Hnew | sna Hreach IH | sna ipnet Hreach IH];
    intros p h s Hlay Hpos.
  - destruct (NewSubnetAllocator_init _ _ _ _ Hnew) as (_ & _ & _ & _ & -> & _). lia.
  - assert (Hlay0 : layout sna p h s)
      by (eapply layout_config; [apply GetNetwork_config | exact Hlay]).
    pose proof (GetNetwork_spec sna p h s Hlay0) as Hspec.
    destruct Hspec as [Hall | k Hk Hbefore Hfree]; cbn [fst setNext next]; [lia|].
    pose proof Hlay0 as [_ _ _ Hr _].
    pose proof (cand_range sna s k ltac:(lia)). lia.
  - rewrite ReleaseNetwork_next. apply (IH p h s); [|exact Hpos].
    eapply layout_config; [apply ReleaseNetwork_config | exact Hlay].
Qed.

(** C7, counterexample to the strict bound: over 10.1.0.0/24 with 8 host
    bits there is one subnet, and after it is handed out the cursor is 1,
    which is not below the number of subnets. *)
Lemma C7_counterexample :
  exists sna0,
    NewSubnetAllocator "10.1.0.0/24" 8 [] = inr sna0
    /\ reachable (fst (GetNetwork sna0))
    /\ numSubnets (fst (GetNetwork sna0)) = 1
    /\ next (fst (GetNetwork sna0)) = 1
    /\ ~ next (fst (GetNetwork sna0)) < numSubnets (fst (GetNetwork sna0)).
Proof.
  eexists. split; [vm_compute; reflexivity|].
  split.
  - apply reach_get. apply (reach_new "10.1.0.0/24" 8 []); [lia | vm_compute; reflexivity].
  - split; [vm_compute; reflexivity|]. split; [vm_compute; reflexivity|].
    vm_compute. discriminate.
Qed.

(** ** The pool parser *)

(** Two networks overlap when some address lies in both. *)
Definition overlap (a b : IPNet) : Prop :=
  exists ip, wfIP ip /\ Contains a ip = true /\ Contains b ip = true.

(** The host-bit count that [StartClusterMaster] derives from an entry
    is positive and fits into the pool. *)
Definition validPlacement (e : CIDRNetworkEntry) : Prop :=
  0 < 32 - HostSubnetLength e
  /\ 32 - HostSubnetLength e <= 32 - Mask_Size (net_Mask (CIDR e)).

(** The test of [cidrsOverlap] on two networks finds nothing. *)
Definition separate (e1 e2 : CIDRNetworkEntry) : Prop :=
  Contains (CIDR e2) (net_IP (CIDR e1)) = false
  /\ Contains (CIDR e1) (net_IP (CIDR e2)) = false.

Lemma Contains_wider (a b : IPNet) (ip : IP) :
  canonical a -> canonical b -> wfIP ip ->
  Mask_Size (net_Mask a) <= Mask_Size (net_Mask b) ->
  Contains a ip = true -> Contains b ip = true ->
  Contains a (net_IP b) = true.
Proof.
  intros [Ha _] [Hb _] Hip Hle.
  pose proof Ha as [_ Hka]. pose proof Hb as [Hipb Hkb].
  rewrite !Contains_spec by assumption.
  set (ka := Mask_Size (net_Mask a)) in *. set (kb := Mask_Size (net_Mask b)) in *.
  intros Hina Hinb. rewrite Hina.
  assert (Hsplit : 2 ^ (32 - ka) = 2 ^ (32 - kb) * 2 ^ (kb - ka)).
  { rewrite <- Z.pow_add_r by lia. f_equal. lia. }
  assert (0 < 2 ^ (32 - kb)) by (apply Z.pow_pos_nonneg; lia).
  assert (0 < 2 ^ (kb - ka)) by (apply Z.pow_pos_nonneg; lia).
  rewrite Hsplit, <- !Z.div_div by lia. now rewrite Hinb.
Qed.

Lemma overlap_Contains (a b : IPNet) :
  canonical a -> canonical b -> overlap a b ->
  Contains a (net_IP b) = true \/ Contains b (net_IP a) = true.
Proof.
  intros Ha Hb (ip & Hip & Hina & Hinb).
  destruct (Z_le_gt_dec (Mask_Size (net_Mask a)) (Mask_Size (net_Mask b))).
  - left. now apply (Contains_wider a b ip).
  - right. apply (Contains_wider b a ip); auto. lia.
Qed.

Lemma cidrsOverlap_false (cidr : IPNet) (l : list CIDRNetworkEntry) :
  cidrsOverlap cidr l = false <->
  forall e, In e l ->
    Contains cidr (net_IP (CIDR e)) = false /\ Contains (CIDR e) (net_IP cidr) = false.
Proof.
  induction l as [|x l IH]; cbn [cidrsOverlap].
  - split; [intros _ e [] | reflexivity].
  - destruct (Contains cidr (net_IP (CIDR x))) eqn:H1; cbn [orb].
    + split; [discriminate|]. intros H. destruct (H x (or_introl eq_refl)). congruence.
    + destruct (Contains (CIDR x) (net_IP cidr)) eqn:H2.
      * split; [discriminate|]. intros H. destruct (H x (or_introl eq_refl)). congruence.
      * rewrite IH. split.
        -- intros H e [<- | Hin]; auto.
        -- intros H e Hin. apply H. now right.
Qed.

(** What an accepted entry looks like. *)
Lemma parseClusterEntry_inv (entry : string) (acc : list CIDRNetworkEntry)
    (e : CIDRNetworkEntry) :
  parseClusterEntry entry acc = inr e ->
  exists a b rest,
    Split entry "/" = a :: b :: rest
    /\ (rest = [] /\ HostSubnetLength e = 24
        \/ exists c v, rest = [c] /\ ParseUint c = Some v
                       /\ HostSubnetLength e = U32.wrap v)
    /\ ParseCIDR (a +:+ "/" +:+ b) = Some (CIDR e)
    /\ cidrsOverlap (CIDR e) acc = false.
Proof.
  unfold parseClusterEntry.
  destruct (Split entry "/") as [|a [|b [|c [|d rest]]]]; try discriminate.
  - cbn [nth]. destruct (ParseCIDR _) as [cidr|] eqn:Hp; [|discriminate].
    destruct (cidrsOverlap cidr acc) eqn:Ho; [discriminate|].
    intros [= <-]. exists a, b, []. cbn. auto 10.
  - destruct (ParseUint c) as [v|] eqn:Hv; [|discriminate].
    cbn [nth]. destruct (ParseCIDR _) as [cidr|] eqn:Hp; [|discriminate].
    destruct (cidrsOverlap cidr acc) eqn:Ho; [discriminate|].
    intros [= <-]. exists a, b, [c]. cbn. eauto 10.
Qed.

Definition noOverlapList (l : list CIDRNetworkEntry) : Prop :=
  forall (i j : nat) e1 e2,
    (i < j)%nat -> l !! i = Some e1 -> l !! j = Some e2 -> separate e1 e2.

Lemma noOverlapList_snoc (l : list CIDRNetworkEntry) (e : CIDRNetworkEntry) :
  noOverlapList l -> cidrsOverlap (CIDR e) l = false -> noOverlapList (l ++ [e]).
Proof.
  intros Hl Ho i j e1 e2 Hij H1 H2.
  rewrite cidrsOverlap_false in Ho.
  assert (Hj : (j < length (l ++ [e]))%nat) by (eapply lookup_lt_Some; eassumption).
  rewrite length_app in Hj. cbn in Hj.
  rewrite lookup_app_l in H1 by lia.
  destruct (decide (j < length l)%nat) as [Hlt|Hge].
  - rewrite lookup_app_l in H2 by lia. now apply (Hl i j).
  - rewrite lookup_app_r in H2 by lia.
    replace (j - length l)%nat with O in H2 by lia. injection H2 as <-.
    apply list_elem_of_lookup_2, list_elem_of_In in H1.
    destruct (Ho e1 H1). split; assumption.
Qed.

(** The entry [e] was read from the text [entry]. *)
Definition parsedFrom (entry : string) (e : CIDRNetworkEntry) : Prop :=
  exists a b rest,
    Split entry "/" = a :: b :: rest
    /\ (rest = [] /\ HostSubnetLength e = 24
        \/ exists c v, rest = [c] /\ ParseUint c = Some v
                       /\ HostSubnetLength e = U32.wrap v)
    /\ ParseCIDR (a +:+ "/" +:+ b) = Some (CIDR e).

Lemma parseClusterEntries_spec (es : list string) (acc l : list CIDRNetworkEntry) :
  parseClusterEntries es acc = inr l ->
  exists new, l = acc ++ new /\ Forall2 parsedFrom es new
              /\ (noOverlapList acc -> noOverlapList l).
Proof.
  revert acc. induction es as [|entry rest IH]; intros acc; cbn [parseClusterEntries].
  - intros [= <-]. exists []. rewrite app_nil_r. auto.
  - destruct (parseClusterEntry entry acc) as [err|e] eqn:He; [discriminate|].
    intros Hrest. apply IH in Hrest as (new & -> & Hall & Hno).
    apply parseClusterEntry_inv in He as (a & b & tl & Hs & Hl & Hp & Ho).
    exists (e :: new). split; [now rewrite <- app_assoc|].
    split.
    + constructor; [|exact Hall]. exists a, b, tl. auto.
    + intros Hacc. apply Hno. now apply noOverlapList_snoc.
Qed.

Lemma parsedFrom_wf (entry : string) (e : CIDRNetworkEntry) :
  parsedFrom entry e -> canonical (CIDR e) /\ 0 <= HostSubnetLength e < 2 ^ 32.
Proof.
  intros (a & b & rest & _ & Hl & Hp). split; [now apply ParseCIDR_canonical in Hp|].
  destruct Hl as [[_ ->] | (c & v & _ & _ & ->)]; [lia|].
  apply Z.mod_pos_bound. reflexivity.
Qed.

Lemma NewSubnetAllocator_error (text : string) (h : Z) (inUse : list string) (err : Error) :
  NewSubnetAllocator text h inUse = inl err -> InvalidPool err.
Proof.
  unfold NewSubnetAllocator, InvalidPool.
  destruct (ParseCIDR text); [|intros [= <-]; auto].
  destruct (h =? 0); [intros [= <-]; auto|].
  destruct (_ <? h); [intros [= <-]; auto | discriminate].
Qed.

Lemma NewSubnetAllocator_placement (e : CIDRNetworkEntry) (inUse : list string) :
  canonical (CIDR e) -> 0 <= HostSubnetLength e < 2 ^ 32 ->
  (validPlacement e <->
   exists sna,
     NewSubnetAllocator (IPNet_String (CIDR e)) (U32.sub 32 (HostSubnetLength e)) inUse
     = inr sna).
Proof.
  intros Hcan Hl. unfold NewSubnetAllocator, validPlacement.
  rewrite ParseCIDR_String_canonical by assumption.
  destruct Hcan as [[_ Hp] _].
  set (p := Mask_Size (net_Mask (CIDR e))) in *.
  set (len := HostSubnetLength e) in *.
  assert (Hw : U32.sub 32 (U32.wrap p) = 32 - p).
  { u32. Z.div_mod_to_equations. lia. }
  rewrite !Hw.
  assert (Hh : U32.sub 32 len = if len <=? 32 then 32 - len else 4294967296 + 32 - len).
  { u32. destruct (Z.leb_spec len 32); Z.div_mod_to_equations; lia. }
  rewrite !Hh. change (2 ^ 32) with 4294967296 in Hl.
  destruct (Z.leb_spec len 32).
  - destruct (Z.eqb_spec (32 - len) 0).
    + split; [lia | intros [sna Hs]; discriminate].
    + destruct (Z.ltb_spec (32 - p) (32 - len)).
      * split; [lia | intros [sna Hs]; discriminate].
      * split; [eauto | lia].
  - destruct (Z.eqb_spec (4294967296 + 32 - len) 0); [lia|].
    destruct (Z.ltb_spec (32 - p) (4294967296 + 32 - len)); [|lia].
    split; [lia | intros [sna Hs]; discriminate].
Qed.

(** The allocator that [StartClusterMaster] builds for an entry from the
    annotations of one listing. *)
Definition allocatorOf (annotations : list string) (e : CIDRNetworkEntry)
    (sna : SubnetAllocator) : Prop :=
  network sna = CIDR e
  /\ hostBits sna = 32 - HostSubnetLength e
  /\ next sna = 0
  /\ allocMap sna = seedMap (CIDR e) (subrange annotations) ∅.

Lemma NewSubnetAllocator_allocatorOf (e : CIDRNetworkEntry) (annotations : list string)
    (sna : SubnetAllocator) :
  canonical (CIDR e) -> 0 <= HostSubnetLength e < 2 ^ 32 ->
  NewSubnetAllocator (IPNet_String (CIDR e)) (U32.sub 32 (HostSubnetLength e))
    (subrange annotations) = inr sna ->
  validPlacement e /\ allocatorOf annotations e sna.
Proof.
  intros Hcan Hlen Hnew.
  assert (Hv : validPlacement e)
    by (apply (NewSubnetAllocator_placement e (subrange annotations)); eauto).
  split; [exact Hv|].
  destruct (NewSubnetAllocator_init _ _ _ _ Hnew) as (netIP & Hp & Hnet & Hh & Hnext & Hmap).
  rewrite ParseCIDR_String_canonical in Hp by assumption. injection Hp as <-.
  unfold allocatorOf. rewrite Hnet, Hh, Hnext, Hmap.
  repeat split. destruct Hv as [Hpos Hfit].
  u32. Z.div_mod_to_equations. lia.
Qed.

(** What the loop of [StartClusterMaster] returns, listing number [call]
    being the first one it makes. *)
Definition masterOutcome (l : list CIDRNetworkEntry)
    (GetNamespaces : nat -> option (list string)) (call : nat)
    (r : MasterError + list SubnetAllocator) : Prop :=
  match r with
  | inr allocators =>
      Forall validPlacement l
      /\ length allocators = length l
      /\ (forall k, (k < length l)%nat -> is_Some (GetNamespaces (call + k)%nat))
      /\ (forall (k : nat) e sna,
            l !! k = Some e -> allocators !! k = Some sna ->
            exists annotations,
              GetNamespaces (call + k)%nat = Some annotations
              /\ allocatorOf annotations e sna)
  | inl ErrGetNamespaces =>
      exists k, (k < length l)%nat /\ GetNamespaces (call + k)%nat = None
  | inl (ErrNewSubnetAllocator err) =>
      InvalidPool err /\ exists e, In e l /\ ~ validPlacement e
  end.

Lemma masterSubnetAllocators_spec (l : list CIDRNetworkEntry)
    (GetNamespaces : nat -> option (list string)) (call : nat) :
  Forall (fun e => canonical (CIDR e) /\ 0 <= HostSubnetLength e < 2 ^ 32) l ->
  masterOutcome l GetNamespaces call (masterSubnetAllocators l GetNamespaces call).
Proof.
  intros Hall. revert call.
  induction Hall as [|x l [Hcan Hlen] Hall IH]; intros call; cbn [masterSubnetAllocators].
  - cbn. split; [constructor|]. split; [reflexivity|].
    split; [intros k Hk; lia|]. intros k e sna H. rewrite lookup_nil in H. discriminate.
  - destruct (GetNamespaces call) as [annotations|] eqn:Hlist.
    2:{ exists O. cbn [length]. rewrite Nat.add_0_r. split; [lia | exact Hlist]. }
    destruct (NewSubnetAllocator _ _ _) as [err|sna] eqn:Hnew.
    { cbn. split; [now apply NewSubnetAllocator_error in Hnew|].
      exists x. split; [now left|]. intros Hv.
      apply (NewSubnetAllocator_placement x (subrange annotations) Hcan Hlen) in Hv
        as [sna Hs]. congruence. }
    apply NewSubnetAllocator_allocatorOf in Hnew as [Hv Hof]; try assumption.
    specialize (IH (S call)).
    destruct (masterSubnetAllocators l GetNamespaces (S call)) as [[|err]|allocs].
    + destruct IH as (k & Hk & Hnone). exists (S k). cbn [length].
      rewrite Nat.add_succ_r. split; [lia | exact Hnone].
    + destruct IH as [Hinv (e & Hin & Hbad)]. split; [exact Hinv|].
      exists e. split; [now right | exact Hbad].
    + destruct IH as (Hvalid & Hlength & Hsome & Hshape).
      split; [now constructor|]. split; [cbn [length]; now rewrite Hlength|].
      split.
      * intros [|k] Hk; cbn [length] in Hk.
        -- rewrite Nat.add_0_r, Hlist. eauto.
        -- rewrite Nat.add_succ_r. apply Hsome. lia.
      * intros [|k] e sna' He Hs; cbn in He, Hs.
        -- injection He as <-. injection Hs as <-.
           exists annotations. rewrite Nat.add_0_r. auto.
        -- rewrite Nat.add_succ_r. now apply (Hshape k).
Qed.

Lemma parsedFrom_Forall (es : list string) (l : list CIDRNetworkEntry) :
  Forall2 parsedFrom es l ->
  Forall (fun e => canonical (CIDR e) /\ 0 <= HostSubnetLength e < 2 ^ 32) l.
Proof.
  induction 1 as [|entry e es l He _ IH]; constructor; [|exact IH].
  now apply (parsedFrom_wf entry).
Qed.

Lemma separate_not_overlap (e1 e2 : CIDRNetworkEntry) :
  canonical (CIDR e1) -> canonical (CIDR e2) -> separate e1 e2 ->
  ~ overlap (CIDR e1) (CIDR e2).
Proof.
  intros H1 H2 [S1 S2] Ho.
  apply overlap_Contains in Ho as [Ho | Ho]; try assumption; congruence.
Qed.

Lemma overlap_sym (a b : IPNet) : overlap a b -> overlap b a.
Proof. intros (ip & Hip & Ha & Hb). exists ip. auto. Qed.



Lemma parsedFrom_parts (entry : string) (e : CIDRNetworkEntry) :
  parsedFrom entry e ->
  (length (Split entry "/") = 2%nat /\ HostSubnetLength e = 24)
  \/ length (Split entry "/") = 3%nat.
Proof.
  intros (a & b & rest & -> & [[-> Hl] | (c & v & -> & _)] & _); cbn; auto.
Qed.

(** C10, as the code has it. An entry of two slash-separated parts gets
    the default HostSubnetLength 24; it is accepted when, besides, its
    address/prefix text parses and its pool overlaps none of the entries
    before it. An entry with another number of parts than two or three
    makes the parsing fail. *)
Theorem C10_default_host_subnet_length :
  (forall entry acc a b cidr,
     Split entry "/" = [a; b] ->
     ParseCIDR (a +:+ "/" +:+ b) = Some cidr ->
     cidrsOverlap cidr acc = false ->
     parseClusterEntry entry acc = inr (mkCIDRNetworkEntry cidr 24))
  /\ (forall cmd l,
        parseClusterSubnetEntries cmd = inr l ->
        Forall2 (fun entry e =>
                   length (Split entry "/") = 2%nat -> HostSubnetLength e = 24)
                (Split cmd ",") l)
  /\ (forall cmd entry,
        In entry (Split cmd ",") ->
        length (Split entry "/") <> 2%nat ->
        length (Split entry "/") <> 3%nat ->
        exists err, parseClusterSubnetEntries cmd = inl err).
Proof.
  split; [|split].
  - intros entry acc a b cidr Hs Hp Ho. unfold parseClusterEntry.
    rewrite Hs. cbn [nth]. now rewrite Hp, Ho.
  - intros cmd l Hparse. unfold parseClusterSubnetEntries in Hparse.
    apply parseClusterEntries_spec in Hparse as (new & -> & Hall & _).
    cbn [app]. eapply Forall2_impl; [exact Hall|].
    intros entry e Hfrom Hlen.
    apply parsedFrom_parts in Hfrom as [[_ H] | H]; [exact H | congruence].
  - intros cmd entry Hin H2 H3.
    destruct (parseClusterSubnetEntries cmd) as [err|l] eqn:Hparse; [eauto|].
    exfalso. unfold parseClusterSubnetEntries in Hparse.
    apply parseClusterEntries_spec in Hparse as (new & -> & Hall & _).
    apply list_elem_of_In, list_elem_of_lookup in Hin as [i Hi].
    destruct (Forall2_lookup_l _ _ _ _ _ Hall Hi) as (e & _ & Hfrom).
    apply parsedFrom_parts in Hfrom as [[H _] | H]; contradiction.
Qed.

(** C10, counterexample: 10.1.0.0/16 has two parts and is well formed,
    and it is refused because its pool lies inside the pool of the entry
    before it. *)
Lemma C10_counterexample :
  Split "10.0.0.0/8,10.1.0.0/16" "," = ["10.0.0.0/8"; "10.1.0.0/16"]%string
  /\ Split "10.1.0.0/16" "/" = ["10.1.0.0"; "16"]%string
  /\ ParseCIDR "10.1.0.0/16" = Some (mkIPNet (IPv4 10 1 0 0) (CIDRMask 16))
  /\ parseClusterSubnetEntries "10.0.0.0/8,10.1.0.0/16" = inl ErrOverlap.
Proof. repeat split; vm_compute; reflexivity. Qed.

(** * Instances of the theorems on concrete pools *)

(** The allocator over 10.1.0.0/24 with 6 host bits: four subnets, no
    rotation. *)
Definition pool24 : SubnetAllocator :=
  {| network := mkIPNet (IPv4 10 1 0 0) (CIDRMask 24); hostBits := 6;
     leftShift := 0; leftMask := 0xFFFFFFFF; rightShift := 0; rightMask := 0;
     next := 0; allocMap := ∅ |}.

(** The same pool seeded with one valid entry, one that does not parse
    and one outside the pool. *)
Definition seeded24 : SubnetAllocator :=
  {| network := mkIPNet (IPv4 10 1 0 0) (CIDRMask 24); hostBits := 6;
     leftShift := 0; leftMask := 0xFFFFFFFF; rightShift := 0; rightMask := 0;
     next := 0; allocMap := <["10.1.0.64/26"%string := true]> ∅ |}.

Lemma pool24_new : NewSubnetAllocator "10.1.0.0/24" 6 [] = inr pool24.
Proof. vm_compute. reflexivity. Defined.

Lemma uint32_6 : 0 <= 6 < 2 ^ 32.
Proof. split; [discriminate | reflexivity]. Defined.

Lemma pool24_reachable : reachable pool24.
Proof. exact (reach_new "10.1.0.0/24" 6 [] pool24 uint32_6 pool24_new). Defined.

Lemma C2_exhaustion_witness :
  0 <= 6 < 2 ^ 32
  /\ NewSubnetAllocator "10.1.0.0/24" 6 [] = inr pool24
  /\ exists (subnets : list IPNet) (snaN : SubnetAllocator),
       numSubnets pool24 = 2 ^ numSubnetBits pool24
       /\ GetNetworks (Z.to_nat (numSubnets pool24)) pool24 = (snaN, map inr subnets)
       /\ Z.of_nat (length subnets) = numSubnets pool24
       /\ NoDup subnets
       /\ GetNetwork snaN = (setNext snaN 0, inl ErrSubnetAllocatorFull)
       /\ next (fst (GetNetwork snaN)) = 0
       /\ forall S, In S subnets ->
            exists sna1 sna2,
              ReleaseNetwork (setNext snaN 0) S = (sna1, None)
              /\ GetNetwork sna1 = (sna2, inr S)
              /\ Contains (network pool24) (net_IP S) = true
              /\ net_Mask S = CIDRMask (32 - 6).
Proof.
  split; [exact uint32_6|]. split; [exact pool24_new|].
  exact (C2_exhaustion "10.1.0.0/24" 6 pool24 uint32_6 pool24_new).
Defined.


Lemma seeded24_entries : Forall ipv4Text ["10.1.0.77/26"; "bogus"; "10.2.0.0/26"]%string.
Proof. repeat constructor. Defined.


Lemma C7_cursor_bound_witness :
  reachable (fst (GetNetwork pool24))
  /\ 0 <= next (fst (GetNetwork pool24)) <= numSubnets (fst (GetNetwork pool24))
  /\ numSubnets (fst (GetNetwork pool24)) = 2 ^ numSubnetBits (fst (GetNetwork pool24)).
Proof.
  split; [exact (reach_get pool24 pool24_reachable)|].
  exact (C7_cursor_bound _ (reach_get pool24 pool24_reachable)).
Defined.

(** Two pools that do not overlap, the first with its own
    hostSubnetLength. *)
Definition twoPools : list CIDRNetworkEntry :=
  [mkCIDRNetworkEntry (mkIPNet (IPv4 10 128 0 0) (CIDRMask 14)) 23;
   mkCIDRNetworkEntry (mkIPNet (IPv4 10 0 0 0) (CIDRMask 16)) 24].


(** * Further properties of the allocator *)

(** The subnets among the results of a series of calls. *)
Fixpoint successes (rs : list (Error + IPNet)) : list IPNet :=
  match rs with
  | [] => []
  | inr subnet :: rest => subnet :: successes rest
  | inl _ :: rest => successes rest
  end.

(** X1. [IPToUint32] and [Uint32ToIP] are inverse to each other: every
    32-bit value is the value of the address made from it, every address
    of four octets is made from its value, and the octets of an address
    made from any value are octets. *)
Theorem X1_uint32_ip_round_trip :
  (forall u, 0 <= u < 2 ^ 32 -> IPToUint32 (Uint32ToIP u) = u)
  /\ (forall ip, wfIP ip -> Uint32ToIP (IPToUint32 ip) = ip)
  /\ (forall u, wfIP (Uint32ToIP u)).
Proof.
  split; [exact IPToUint32_Uint32ToIP|].
  split; [exact Uint32ToIP_IPToUint32 | exact Uint32ToIP_wf].
Qed.

Lemma GetNetwork_map (sna sna' : SubnetAllocator) (r : Error + IPNet) :
  GetNetwork sna = (sna', r) ->
  (r = inl ErrSubnetAllocatorFull /\ allocMap sna' = allocMap sna /\ next sna' = 0)
  \/ (exists subnet n, r = inr subnet /\ subnet = genSubnet sna n
        /\ mapGet (allocMap sna) (IPNet_String subnet) = false
        /\ allocMap sna' = <[IPNet_String subnet := true]> (allocMap sna)
        /\ next sna' = U32.add n 1 /\ n = U32.rem n (numSubnets sna)).
Proof. apply GetNetwork_loop_map. Qed.

Lemma GetNetworks_never_returns_taken (k : nat) (sna : SubnetAllocator) (key : string) :
  mapGet (allocMap sna) key = true ->
  forall S, In S (successes (snd (GetNetworks k sna))) -> IPNet_String S <> key.
Proof.
  revert sna. induction k as [|k IH]; intros sna Hkey S HS; cbn [GetNetworks] in HS.
  - destruct HS.
  - destruct (GetNetwork sna) as [sna1 r] eqn:Hget.
    destruct (GetNetworks k sna1) as [sna2 rs] eqn:Hrun. cbn [snd] in HS.
    apply GetNetwork_map in Hget
        as [(-> & Hmap & _) | (subnet & n & -> & _ & Hfree & Hmap & _)];
      cbn [successes] in HS.
    + apply (IH sna1); [now rewrite Hmap | now rewrite Hrun].
    + assert (Hne : IPNet_String subnet <> key) by (intros <-; congruence).
      destruct HS as [<- | HS]; [exact Hne|].
      apply (IH sna1); [|now rewrite Hrun].
      rewrite Hmap, mapGet_insert, decide_False by assumption. exact Hkey.
Qed.

(** X2. No double allocation: in whatever state the allocator is, the
    subnets returned by a series of [GetNetwork] calls with no release in
    between have pairwise different canonical texts, so they are pairwise
    different. *)
Theorem X2_no_double_allocation (k : nat) (sna : SubnetAllocator) :
  NoDup (map IPNet_String (successes (snd (GetNetworks k sna))))
  /\ NoDup (successes (snd (GetNetworks k sna))).
Proof.
  assert (Hkeys : NoDup (map IPNet_String (successes (snd (GetNetworks k sna))))).
  { revert sna. induction k as [|k IH]; intros sna; cbn [GetNetworks].
    - constructor.
    - destruct (GetNetwork sna) as [sna1 r] eqn:Hget.
      pose proof (IH sna1) as Hrest.
      pose proof (GetNetworks_never_returns_taken k sna1) as Hnever.
      destruct (GetNetworks k sna1) as [sna2 rs]. cbn [snd] in *.
      apply GetNetwork_map in Hget
          as [(-> & _) | (subnet & n & -> & _ & _ & Hmap & _)];
        cbn [successes map]; [exact Hrest|].
      constructor; [|exact Hrest].
      intros Hin. apply list_elem_of_In, in_map_iff in Hin as (S & He & HS).
      apply (Hnever (IPNet_String subnet)) in HS; [congruence|].
      rewrite Hmap, mapGet_insert, decide_True by reflexivity. reflexivity. }
  split; [exact Hkeys|].
  eapply NoDup_fmap_1. exact Hkeys.
Qed.

(** X3. A subnet returned by [GetNetwork] lies in the pool, has the
    prefix length [32 - hostBits], has an all-zero host part, was not
    marked in use before the call and is marked in use after it. *)
Theorem X3_allocated_subnet_valid (sna sna' : SubnetAllocator) (S : IPNet) :
  reachable sna ->
  GetNetwork sna = (sna', inr S) ->
  Contains (network sna) (net_IP S) = true
  /\ net_Mask S = CIDRMask (32 - hostBits sna)
  /\ canonical S
  /\ mapGet (allocMap sna) (IPNet_String S) = false
  /\ allocMap sna' !! IPNet_String S = Some true.
Proof.
  intros Hreach Hget.
  destruct (reachable_layout sna Hreach) as (p & h & s & Hlay).
  pose proof (GetNetwork_spec sna p h s Hlay) as Hspec.
  rewrite Hget in Hspec.
  inversion Hspec as [|k Hk Hbefore Hfree [Hsna' HS]]. clear Hspec.
  pose proof Hlay as [_ _ Hh Hr _].
  pose proof (cand_range sna s k ltac:(lia)) as Hc.
  split; [now apply (genSubnet_Contains sna p h s)|].
  split; [rewrite (genSubnet_eq sna p h s), Hh by assumption; reflexivity|].
  split; [now apply (genSubnet_canonical sna p h s)|].
  split; [exact Hfree|].
  cbn [setNext setAlloc allocMap]. apply lookup_insert_eq.
Qed.


(** X5. Round robin: a successful [GetNetwork] returns the first
    candidate, counting from the cursor and wrapping around at the number
    of subnets, that is not marked in use; it marks it and leaves the
    cursor just behind it. *)
Theorem X5_round_robin_order (sna sna' : SubnetAllocator) (S : IPNet) :
  reachable sna ->
  GetNetwork sna = (sna', inr S) ->
  exists k,
    0 <= k < numSubnets sna
    /\ S = genSubnet sna ((k + next sna) mod numSubnets sna)
    /\ mapGet (allocMap sna) (IPNet_String S) = false
    /\ (forall k', 0 <= k' < k ->
          mapGet (allocMap sna)
            (IPNet_String (genSubnet sna ((k' + next sna) mod numSubnets sna))) = true)
    /\ next sna' = (k + next sna) mod numSubnets sna + 1
    /\ allocMap sna' = <[IPNet_String S := true]> (allocMap sna)
    /\ config sna' = config sna.
Proof.
  intros Hreach Hget.
  destruct (reachable_layout sna Hreach) as (p & h & s & Hlay).
  pose proof (GetNetwork_spec sna p h s Hlay) as Hspec.
  rewrite Hget in Hspec. rewrite (layout_numSubnets _ _ _ _ Hlay).
  inversion Hspec as [|k Hk Hbefore Hfree [Hsna' HS]]. clear Hspec.
  exists k. split; [exact Hk|]. split; [reflexivity|].
  split; [exact Hfree|]. split; [exact Hbefore|]. repeat split.
Qed.

Lemma NewSubnetAllocator_inUse (text : string) (h : Z) (inUse inUse' : list string)
    (sna : SubnetAllocator) :
  NewSubnetAllocator text h inUse = inr sna ->
  exists sna',
    NewSubnetAllocator text h inUse' = inr sna'
    /\ config sna' = config sna /\ next sna' = 0
    /\ allocMap sna' = seedMap (network sna) inUse' ∅.
Proof.
  unfold NewSubnetAllocator.
  destruct (ParseCIDR text) as [netIP|]; [|discriminate].
  destruct (h =? 0); [discriminate|].
  destruct (_ <? h); [discriminate|].
  intros [= <-]. eexists. repeat split.
Qed.

(** X6. Reseeding: when an allocator is built again over the same pool
    with the text of one of its subnets as the only preallocated entry,
    as [StartClusterMaster] does from the namespace annotations, exactly
    that subnet is marked in use. *)
Theorem X6_reseed_marks_subnet (text : string) (h : Z) (inUse : list string)
    (sna : SubnetAllocator) (n : Z) :
  0 <= h < 2 ^ 32 ->
  NewSubnetAllocator text h inUse = inr sna ->
  0 <= n < numSubnets sna ->
  exists sna',
    NewSubnetAllocator text h [IPNet_String (genSubnet sna n)] = inr sna'
    /\ config sna' = config sna
    /\ forall m, 0 <= m < numSubnets sna ->
         mapGet (allocMap sna') (IPNet_String (genSubnet sna' m)) = bool_decide (m = n).
Proof.
  intros Hh Hnew Hn.
  pose proof (NewSubnetAllocator_layout _ _ _ _ Hh Hnew) as Hlay.
  set (p := Mask_Size (net_Mask (network sna))) in *.
  set (s := 32 - p - h) in *.
  rewrite (layout_numSubnets _ _ _ _ Hlay) in *.
  destruct (NewSubnetAllocator_inUse text h inUse [IPNet_String (genSubnet sna n)] sna Hnew)
    as (sna' & Hnew' & Hc & _ & Hmap).
  exists sna'. split; [exact Hnew'|]. split; [exact Hc|].
  intros m Hm. rewrite (genSubnet_config sna' sna) by assumption.
  rewrite Hmap. cbn [seedMap].
  rewrite ParseCIDR_String_canonical by now apply (genSubnet_canonical sna p h s).
  rewrite (genSubnet_Contains sna p h s) by assumption. cbn [negb].
  rewrite mapGet_insert. unfold mapGet. rewrite lookup_empty. cbn.
  destruct (decide (IPNet_String (genSubnet sna n) = IPNet_String (genSubnet sna m)))
    as [He|Hne].
  - apply (genSubnet_String_inj sna p h s) in He; try assumption.
    symmetry. apply bool_decide_eq_true. congruence.
  - symmetry. apply bool_decide_eq_false. intros ->. now apply Hne.
Qed.

Lemma Contains_self (n : IPNet) : Contains n (net_IP n) = true.
Proof. unfold Contains. apply Z.eqb_refl. Qed.

(** X7. [cidrsOverlap] is exact on parsed networks: it answers [true]
    exactly when the network shares an address with the network of some
    entry of the list. *)
Theorem X7_cidrsOverlap_exact (cidr : IPNet) (cidrList : list CIDRNetworkEntry) :
  canonical cidr ->
  Forall (fun e => canonical (CIDR e)) cidrList ->
  (cidrsOverlap cidr cidrList = true
   <-> exists e, In e cidrList /\ overlap cidr (CIDR e)).
Proof.
  intros Hc Hall. rewrite Forall_forall in Hall.
  split.
  - induction cidrList as [|x l IH]; cbn [cidrsOverlap]; [discriminate|].
    assert (Hx : canonical (CIDR x)) by (apply Hall; left).
    destruct (Contains cidr (net_IP (CIDR x))) eqn:H1; cbn [orb].
    { intros _. exists x. split; [now left|].
      exists (net_IP (CIDR x)). split; [apply Hx|].
      split; [exact H1 | apply Contains_self]. }
    destruct (Contains (CIDR x) (net_IP cidr)) eqn:H2.
    { intros _. exists x. split; [now left|].
      exists (net_IP cidr). split; [apply Hc|].
      split; [apply Contains_self | exact H2]. }
    intros H. destruct IH as (e & Hin & Ho); [|exact H|].
    + intros e He. apply Hall. now right.
    + exists e. split; [now right | exact Ho].
  - intros (e & Hin & Ho).
    destruct (cidrsOverlap cidr cidrList) eqn:Hov; [reflexivity|].
    rewrite cidrsOverlap_false in Hov. destruct (Hov e Hin) as [H1 H2].
    apply overlap_Contains in Ho as [Ho | Ho]; try congruence; try assumption.
    apply Hall, list_elem_of_In, Hin.
Qed.


(** X10. Releasing a subnet of the pool that is marked in use frees
    exactly that subnet: the other subnets keep their marks, and the next
    [GetNetwork] succeeds. *)
Theorem X10_release_then_allocate (sna sna' : SubnetAllocator) (n : Z) :
  reachable sna ->
  0 <= n < numSubnets sna ->
  ReleaseNetwork sna (genSubnet sna n) = (sna', None) ->
  mapGet (allocMap sna) (IPNet_String (genSubnet sna n)) = true
  /\ mapGet (allocMap sna') (IPNet_String (genSubnet sna n)) = false
  /\ (forall m, 0 <= m < numSubnets sna -> m <> n ->
        mapGet (allocMap sna') (IPNet_String (genSubnet sna m))
        = mapGet (allocMap sna) (IPNet_String (genSubnet sna m)))
  /\ exists S sna'', GetNetwork sna' = (sna'', inr S).
Proof.
  intros Hreach Hn Hrel.
  destruct (reachable_layout sna Hreach) as (p & h & s & Hlay).
  rewrite (layout_numSubnets _ _ _ _ Hlay) in *.
  unfold ReleaseNetwork in Hrel.
  destruct (negb (Contains _ _)); [discriminate|].
  destruct (mapGet (allocMap sna) (IPNet_String (genSubnet sna n))) eqn:Hwas;
    cbn [negb] in Hrel; [|discriminate].
  injection Hrel as <-.
  set (sna' := setAlloc sna (IPNet_String (genSubnet sna n)) false).
  assert (Hlay' : layout sna' p h s)
    by (apply (layout_config sna); [reflexivity | exact Hlay]).
  assert (Htk : forall m, 0 <= m < 2 ^ s ->
                  taken sna' m = if decide (n = m) then false else taken sna m)
    by (intros m Hm; now apply (taken_insert sna sna' p h s n m false)).
  split; [reflexivity|].
  split; [change (taken sna' n = false); rewrite Htk, decide_True by auto; reflexivity|].
  split.
  - intros m Hm Hne. change (taken sna' m = taken sna m).
    rewrite Htk, decide_False by auto. reflexivity.
  - pose proof (GetNetwork_spec sna' p h s Hlay') as Hspec.
    destruct Hspec as [Hall | k Hk Hbefore Hfree]; [|eauto].
    specialize (Hall n Hn). rewrite Htk, decide_True in Hall by auto. discriminate.
Qed.

Lemma seedMap_same_entries (netIP : IPNet) (l1 l2 : list string) :
  (forall entry, In entry l1 <-> In entry l2) ->
  seedMap netIP l1 ∅ = seedMap netIP l2 ∅.
Proof.
  intros Hsame.
  assert (Hrec : forall la lb k, (forall entry, In entry la -> In entry lb) ->
                   recorded netIP la k -> recorded netIP lb k).
  { intros la lb k Hsub (e & nIp & Hin & H). exists e, nIp. auto. }
  assert (Hone : forall la lb k b, (forall entry, In entry la -> In entry lb) ->
                   seedMap netIP la ∅ !! k = Some b -> seedMap netIP lb ∅ !! k = Some b).
  { intros la lb k b Hsub H. apply seedMap_lookup in H as [H | [-> H]].
    - rewrite lookup_empty in H. discriminate.
    - apply seedMap_recorded. now apply (Hrec la lb). }
  apply map_eq. intros k.
  destruct (seedMap netIP l1 ∅ !! k) as [b|] eqn:H1.
  - symmetry. apply (Hone l1 l2); [intros e; apply Hsame | exact H1].
  - destruct (seedMap netIP l2 ∅ !! k) as [b|] eqn:H2; [|reflexivity].
    apply (Hone l2 l1) in H2; [congruence | intros e; apply Hsame].
Qed.

(** X12. The preallocated entries count as a set: two lists with the
    same entries, in any order and with any repetitions, give the same
    allocator or the same error. *)
Theorem X12_seeding_order_irrelevant (text : string) (h : Z) (l1 l2 : list string) :
  (forall entry, In entry l1 <-> In entry l2) ->
  NewSubnetAllocator text h l1 = NewSubnetAllocator text h l2.
Proof.
  intros Hsame. unfold NewSubnetAllocator.
  destruct (ParseCIDR text) as [netIP|]; [|reflexivity].
  destruct (h =? 0); [reflexivity|].
  destruct (_ <? h); [reflexivity|].
  now rewrite (seedMap_same_entries netIP l1 l2).
Qed.

Lemma step_keeps_keys (sna : SubnetAllocator) (op : Op) :
  dom (allocMap sna) ⊆ dom (allocMap (fst (step sna op))).
Proof.
  destruct op as [|ipnet]; cbn [step].
  - destruct (GetNetwork sna) as [sna' r] eqn:Hget. cbn [fst].
    apply GetNetwork_map in Hget as [(_ & -> & _) | (subnet & n & _ & _ & _ & -> & _)];
      [reflexivity | apply dom_insert_subseteq].
  - cbn [fst]. unfold ReleaseNetwork.
    destruct (negb (Contains _ _)); [reflexivity|].
    destruct (negb (mapGet _ _)); [reflexivity|].
    cbn [fst setAlloc allocMap]. apply dom_insert_subseteq.
Qed.

(** X13. No key ever leaves the allocation map: after any sequence of
    [GetNetwork] and [ReleaseNetwork] calls, every key that was in the
    map is still in it. *)
Theorem X13_keys_never_removed (ops : list Op) (sna : SubnetAllocator) :
  dom (allocMap sna) ⊆ dom (allocMap (fst (run ops sna))).
Proof.
  revert sna. induction ops as [|op rest IH]; intros sna; cbn [run].
  - reflexivity.
  - pose proof (step_keeps_keys sna op) as Hstep.
    destruct (step sna op) as [sna1 out1]. cbn [fst] in Hstep.
    pose proof (IH sna1) as Hrest.
    destruct (run rest sna1) as [sna2 out2]. cbn [fst] in *.
    etransitivity; eassumption.
Qed.

(** The subnet number whose candidate has the 32-bit address [u]: the
    subnet field of [u], rotated back. *)
Definition subnetNumber (sna : SubnetAllocator) (u : Z) : Z :=
  let field := Z.shiftr u (hostBits sna) mod 2 ^ numSubnetBits sna in
  Z.lor (Z.shiftl (field mod 2 ^ leftShift sna) (rightShift sna))
        (Z.shiftr field (leftShift sna)).

Lemma subnetNumber_bits (sna : SubnetAllocator) (p h s u j : Z) :
  layout sna p h s -> 0 <= j ->
  Z.testbit (subnetNumber sna u) j
  = ((rightShift sna <=? j) && (j - rightShift sna <? leftShift sna)
     && Z.testbit u (j - rightShift sna + h))
    || ((j + leftShift sna <? s) && Z.testbit u (j + leftShift sna + h)).
Proof.
  intros Hlay Hj. unfold subnetNumber.
  rewrite (layout_numSubnetBits _ _ _ _ Hlay).
  destruct Hlay as [_ _ Hh Hr Hrot]. rewrite Hh.
  assert (0 <= leftShift sna /\ 0 <= rightShift sna
          /\ (leftShift sna + rightShift sna = s
              \/ leftShift sna = 0 /\ rightShift sna = 0)) as (Hl & Hrs & Hsum)
    by (destruct Hrot as [(-> & -> & _) | (? & ? & ? & _)]; lia).
  rewrite Z.lor_spec, Z.shiftl_spec, Z.shiftr_spec by lia.
  rewrite !Z.testbit_mod_pow2 by lia.
  rewrite (Z.shiftr_spec u h (j + leftShift sna)) by lia.
  f_equal.
  destruct (Z.leb_spec (rightShift sna) j); cbn [andb].
  - rewrite Z.shiftr_spec by lia.
    destruct (Z.ltb_spec (j - rightShift sna) (leftShift sna)); cbn [andb]; [|reflexivity].
    destruct (Z.ltb_spec (j - rightShift sna) s); [reflexivity | lia].
  - rewrite (Z.testbit_neg_r _ (j - rightShift sna)) by lia.
    now rewrite !andb_false_r.
Qed.

(** X9. The candidates cover the pool: every network inside the pool
    that has the prefix length [32 - hostBits] and an all-zero host part
    is the candidate of exactly one subnet number. *)
Theorem X9_every_subnet_is_a_candidate (sna : SubnetAllocator) (T : IPNet) :
  reachable sna ->
  canonical T ->
  net_Mask T = CIDRMask (32 - hostBits sna) ->
  Contains (network sna) (net_IP T) = true ->
  exists n,
    0 <= n < numSubnets sna
    /\ genSubnet sna n = T
    /\ forall m, 0 <= m < numSubnets sna -> genSubnet sna m = T -> m = n.
Proof.
  intros Hreach [[HipT HkT] HlowT] Hmask Hin.
  destruct (reachable_layout sna Hreach) as (p & h & s & Hlay).
  rewrite (layout_numSubnets _ _ _ _ Hlay).
  pose proof Hlay as [[Hwfn _] Hp Hh Hr Hrot].
  rewrite Hmask, Hh in HlowT. cbn [Mask_Size] in HlowT.
  replace (32 - (32 - h)) with h in HlowT by lia.
  rewrite Contains_spec, Hp in Hin by assumption.
  replace (32 - p) with (h + s) in Hin by lia.
  set (u := IPToUint32 (net_IP T)) in *.
  pose proof (IPToUint32_range _ HipT) as Hu. fold u in Hu.
  set (n := subnetNumber sna u).
  assert (Hparams : 0 <= leftShift sna /\ 0 <= rightShift sna
          /\ (leftShift sna + rightShift sna = s
              \/ leftShift sna = 0 /\ rightShift sna = 0))
    by (destruct Hrot as [(-> & -> & _) | (? & ? & ? & _)]; lia).
  destruct Hparams as (Hl & Hrs & Hsum).
  assert (Hn : 0 <= n < 2 ^ s).
  { apply range_of_bits; [lia|]. intros j Hj. unfold n.
    rewrite (subnetNumber_bits sna p h s) by (assumption || lia).
    destruct (Z.leb_spec (rightShift sna) j),
      (Z.ltb_spec (j - rightShift sna) (leftShift sna)),
      (Z.ltb_spec (j + leftShift sna) s); try lia; reflexivity. }
  assert (Haddr : subnetAddr sna n = u).
  { apply Z.bits_inj'. intros i Hi.
    rewrite (subnetAddr_bits sna p h s) by assumption.
    destruct (Z.ltb_spec i (h + s)).
    - destruct (Z.leb_spec h i); cbn [andb].
      + unfold n. rewrite (subnetNumber_bits sna p h s).
        2: assumption.
        2:{ unfold srcBit. rewrite Hh.
            destruct (Z.ltb_spec i (h + leftShift sna)); lia. }
        unfold srcBit. rewrite Hh.
        destruct (Z.ltb_spec i (h + leftShift sna)).
        * destruct (Z.leb_spec (rightShift sna) (i - h + rightShift sna)); [|lia].
          destruct (Z.ltb_spec (i - h + rightShift sna - rightShift sna) (leftShift sna));
            [|lia].
          destruct (Z.ltb_spec (i - h + rightShift sna + leftShift sna) s); [lia|].
          cbn [andb orb]. rewrite orb_false_r. f_equal. lia.
        * destruct (Z.ltb_spec (i - h - leftShift sna + leftShift sna) s); [|lia].
          cbn [andb].
          replace (i - h - leftShift sna + leftShift sna + h) with i by lia.
          destruct (Z.leb_spec (rightShift sna) (i - h - leftShift sna)); cbn [andb];
            [|reflexivity].
          destruct (Z.ltb_spec (i - h - leftShift sna - rightShift sna) (leftShift sna));
            [lia | reflexivity].
      + pose proof (Z.testbit_mod_pow2 u h i ltac:(lia)) as Hb.
        rewrite HlowT, Z.bits_0 in Hb.
        destruct (Z.ltb_spec i h); [|lia]. now rewrite Hb.
    - rewrite <- !Z.shiftr_div_pow2 in Hin by lia.
      apply (f_equal (fun x => Z.testbit x (i - (h + s)))) in Hin.
      rewrite !Z.shiftr_spec in Hin by lia.
      replace (i - (h + s) + (h + s)) with i in Hin by lia. exact Hin. }
  assert (Hgen : genSubnet sna n = T).
  { rewrite (genSubnet_eq sna p h s), Haddr by assumption.
    unfold u. rewrite Uint32ToIP_IPToUint32 by assumption.
    destruct T as [ip m]. cbn in *. now rewrite Hmask, Hh. }
  exists n. split; [exact Hn|]. split; [exact Hgen|].
  intros m Hm Hgm. apply (genSubnet_String_inj sna p h s); try assumption.
  now rewrite Hgm, Hgen.
Qed.

(** * Instances of the further properties *)

Definition first26 : IPNet := mkIPNet (IPv4 10 1 0 0) (CIDRMask 26).

Lemma pool24_get : GetNetwork pool24 = (fst (GetNetwork pool24), inr first26).
Proof. vm_compute. reflexivity. Defined.

Lemma X3_allocated_subnet_valid_witness :
  reachable pool24
  /\ GetNetwork pool24 = (fst (GetNetwork pool24), inr first26)
  /\ Contains (network pool24) (net_IP first26) = true
  /\ net_Mask first26 = CIDRMask (32 - hostBits pool24)
  /\ canonical first26
  /\ mapGet (allocMap pool24) (IPNet_String first26) = false
  /\ allocMap (fst (GetNetwork pool24)) !! IPNet_String first26 = Some true.
Proof.
  split; [exact pool24_reachable|]. split; [exact pool24_get|].
  exact (X3_allocated_subnet_valid pool24 _ first26 pool24_reachable pool24_get).
Defined.


Lemma reachable_run (ops : list Op) (sna : SubnetAllocator) :
  reachable sna -> reachable (fst (run ops sna)).
Proof.
  revert sna. induction ops as [|op rest IH]; intros sna Hreach; cbn [run].
  - exact Hreach.
  - assert (Hstep : reachable (fst (step sna op))).
    { destruct op as [|ipnet]; cbn [step].
      - pose proof (reach_get sna Hreach) as H.
        destruct (GetNetwork sna) as [sna' r]. exact H.
      - exact (reach_release sna ipnet Hreach). }
    destruct (step sna op) as [sna1 out1]. cbn [fst] in Hstep.
    specialize (IH sna1 Hstep).
    destruct (run rest sna1) as [sna2 out2]. exact IH.
Defined.

Definition second26 : IPNet := mkIPNet (IPv4 10 1 0 64) (CIDRMask 26).

(** [pool24] after its four subnets have been handed out and the second
    one released: the cursor is 4 and only subnet 1 is free. *)
Definition pool24_wrapped : SubnetAllocator :=
  fst (run [OpGet; OpGet; OpGet; OpGet; OpRelease second26] pool24).

Lemma pool24_wrapped_reachable : reachable pool24_wrapped.
Proof. exact (reachable_run _ pool24 pool24_reachable). Defined.

Lemma pool24_wrapped_get :
  GetNetwork pool24_wrapped = (fst (GetNetwork pool24_wrapped), inr second26).
Proof. vm_compute. reflexivity. Defined.

Lemma X5_round_robin_order_witness :
  reachable pool24_wrapped
  /\ GetNetwork pool24_wrapped = (fst (GetNetwork pool24_wrapped), inr second26)
  /\ exists k,
       0 <= k < numSubnets pool24_wrapped
       /\ second26
          = genSubnet pool24_wrapped
              ((k + next pool24_wrapped) mod numSubnets pool24_wrapped)
       /\ mapGet (allocMap pool24_wrapped) (IPNet_String second26) = false
       /\ (forall k', 0 <= k' < k ->
             mapGet (allocMap pool24_wrapped)
               (IPNet_String
                  (genSubnet pool24_wrapped
                     ((k' + next pool24_wrapped) mod numSubnets pool24_wrapped))) = true)
       /\ next (fst (GetNetwork pool24_wrapped))
          = (k + next pool24_wrapped) mod numSubnets pool24_wrapped + 1
       /\ allocMap (fst (GetNetwork pool24_wrapped))
          = <[IPNet_String second26 := true]> (allocMap pool24_wrapped)
       /\ config (fst (GetNetwork pool24_wrapped)) = config pool24_wrapped.
Proof.
  split; [exact pool24_wrapped_reachable|]. split; [exact pool24_wrapped_get|].
  exact (X5_round_robin_order pool24_wrapped _ second26 pool24_wrapped_reachable
           pool24_wrapped_get).
Defined.

Lemma one_in_pool24 : 0 <= 1 < numSubnets pool24.
Proof. split; [discriminate | reflexivity]. Defined.

Lemma X6_reseed_marks_subnet_witness :
  0 <= 6 < 2 ^ 32
  /\ NewSubnetAllocator "10.1.0.0/24" 6 [] = inr pool24
  /\ 0 <= 1 < numSubnets pool24
  /\ exists sna',
       NewSubnetAllocator "10.1.0.0/24" 6 [IPNet_String (genSubnet pool24 1)] = inr sna'
       /\ config sna' = config pool24
       /\ forall m, 0 <= m < numSubnets pool24 ->
            mapGet (allocMap sna') (IPNet_String (genSubnet sna' m)) = bool_decide (m = 1).
Proof.
  split; [exact uint32_6|]. split; [exact pool24_new|]. split; [exact one_in_pool24|].
  exact (X6_reseed_marks_subnet "10.1.0.0/24" 6 [] pool24 1
           uint32_6 pool24_new one_in_pool24).
Defined.

Definition pool8 : CIDRNetworkEntry :=
  mkCIDRNetworkEntry (mkIPNet (IPv4 10 0 0 0) (CIDRMask 8)) 24.

Definition net16 : IPNet := mkIPNet (IPv4 10 1 0 0) (CIDRMask 16).

Lemma net16_canonical : canonical net16.
Proof. apply (ParseCIDR_canonical "10.1.0.0/16"). vm_compute. reflexivity. Defined.

Lemma pool8_canonical : Forall (fun e => canonical (CIDR e)) [pool8].
Proof.
  constructor; [|constructor].
  apply (ParseCIDR_canonical "10.0.0.0/8"). vm_compute. reflexivity.
Defined.

Lemma X7_cidrsOverlap_exact_witness :
  canonical net16
  /\ Forall (fun e => canonical (CIDR e)) [pool8]
  /\ (cidrsOverlap net16 [pool8] = true
      <-> exists e, In e [pool8] /\ overlap net16 (CIDR e)).
Proof.
  split; [exact net16_canonical|]. split; [exact pool8_canonical|].
  exact (X7_cidrsOverlap_exact net16 [pool8] net16_canonical pool8_canonical).
Defined.

Lemma twoPools_parsed :
  parseClusterSubnetEntries "10.128.0.0/14/23,10.0.0.0/16" = inr twoPools.
Proof. vm_compute. reflexivity. Defined.

(** Listings that differ from one call to the next, and fail from the
    third call on. *)
Definition twoListings (call : nat) : option (list string) :=
  match call with
  | O => Some ["10.128.2.0/23"; ""]%string
  | S O => Some ["10.0.1.0/24"; "10.128.2.0/23"]%string
  | _ => None
  end.


Definition third26 : IPNet := mkIPNet (IPv4 10 1 0 128) (CIDRMask 26).

Lemma third26_canonical : canonical third26.
Proof. apply (ParseCIDR_canonical "10.1.0.128/26"). vm_compute. reflexivity. Defined.

Lemma third26_in_pool24 : Contains (network pool24) (net_IP third26) = true.
Proof. vm_compute. reflexivity. Defined.

Lemma X9_every_subnet_is_a_candidate_witness :
  reachable pool24
  /\ canonical third26
  /\ net_Mask third26 = CIDRMask (32 - hostBits pool24)
  /\ Contains (network pool24) (net_IP third26) = true
  /\ exists n,
       0 <= n < numSubnets pool24
       /\ genSubnet pool24 n = third26
       /\ forall m, 0 <= m < numSubnets pool24 -> genSubnet pool24 m = third26 -> m = n.
Proof.
  split; [exact pool24_reachable|]. split; [exact third26_canonical|].
  split; [reflexivity|]. split; [exact third26_in_pool24|].
  exact (X9_every_subnet_is_a_candidate pool24 third26 pool24_reachable
           third26_canonical eq_refl third26_in_pool24).
Defined.

(** The state of [pool24] after its first subnet has been handed out. *)
Definition pool24_one : SubnetAllocator := fst (GetNetwork pool24).

Lemma zero_in_pool24_one : 0 <= 0 < numSubnets pool24_one.
Proof. split; [discriminate | reflexivity]. Defined.

Lemma pool24_one_release :
  ReleaseNetwork pool24_one (genSubnet pool24_one 0)
  = (fst (ReleaseNetwork pool24_one (genSubnet pool24_one 0)), None).
Proof. vm_compute. reflexivity. Defined.

Lemma X10_release_then_allocate_witness :
  reachable pool24_one
  /\ 0 <= 0 < numSubnets pool24_one
  /\ ReleaseNetwork pool24_one (genSubnet pool24_one 0)
     = (fst (ReleaseNetwork pool24_one (genSubnet pool24_one 0)), None)
  /\ mapGet (allocMap pool24_one) (IPNet_String (genSubnet pool24_one 0)) = true
  /\ mapGet (allocMap (fst (ReleaseNetwork pool24_one (genSubnet pool24_one 0))))
       (IPNet_String (genSubnet pool24_one 0)) = false
  /\ (forall m, 0 <= m < numSubnets pool24_one -> m <> 0 ->
        mapGet (allocMap (fst (ReleaseNetwork pool24_one (genSubnet pool24_one 0))))
          (IPNet_String (genSubnet pool24_one m))
        = mapGet (allocMap pool24_one) (IPNet_String (genSubnet pool24_one m)))
  /\ exists S sna'',
       GetNetwork (fst (ReleaseNetwork pool24_one (genSubnet pool24_one 0)))
       = (sna'', inr S).
Proof.
  split; [exact (reach_get pool24 pool24_reachable)|].
  split; [exact zero_in_pool24_one|]. split; [exact pool24_one_release|].
  exact (X10_release_then_allocate pool24_one _ 0 (reach_get pool24 pool24_reachable)
           zero_in_pool24_one pool24_one_release).
Defined.

Lemma same_entries_example :
  forall entry : string,
    In entry ["10.1.0.0/26"; "10.1.0.64/26"]%string
    <-> In entry ["10.1.0.64/26"; "10.1.0.0/26"; "10.1.0.64/26"]%string.
Proof. intros entry. cbn. tauto. Defined.

Lemma X12_seeding_order_irrelevant_witness :
  (forall entry : string,
     In entry ["10.1.0.0/26"; "10.1.0.64/26"]%string
     <-> In entry ["10.1.0.64/26"; "10.1.0.0/26"; "10.1.0.64/26"]%string)
  /\ NewSubnetAllocator "10.1.0.0/24" 6 ["10.1.0.0/26"; "10.1.0.64/26"]%string
     = NewSubnetAllocator "10.1.0.0/24" 6
         ["10.1.0.64/26"; "10.1.0.0/26"; "10.1.0.64/26"]%string.
Proof.
  split; [exact same_entries_example|].
  exact (X12_seeding_order_irrelevant "10.1.0.0/24" 6 _ _ same_entries_example).
Defined.

(** X11. The candidates of two different subnet numbers share no
    address: the subnets that one allocator can hand out are pairwise
    disjoint ranges. *)
Theorem X11_candidates_disjoint (sna : SubnetAllocator) (n m : Z) :
  reachable sna ->
  0 <= n < numSubnets sna -> 0 <= m < numSubnets sna -> n <> m ->
  ~ overlap (genSubnet sna n) (genSubnet sna m).
Proof.
  intros Hreach Hn Hm Hne Hov.
  destruct (reachable_layout sna Hreach) as (p & h & s & Hlay).
  rewrite (layout_numSubnets _ _ _ _ Hlay) in *.
  pose proof Hlay as [_ _ _ Hr _].
  assert (Hsame : forall a b, 0 <= a < 2 ^ s -> 0 <= b < 2 ^ s ->
            Contains (genSubnet sna a) (net_IP (genSubnet sna b)) = true -> a = b).
  { intros a b Ha Hb Hc.
    pose proof (genSubnet_canonical sna p h s a Hlay Ha) as [Hwa Hlowa].
    pose proof (genSubnet_canonical sna p h s b Hlay Hb) as [Hwb Hlowb].
    rewrite Contains_spec in Hc by (assumption || apply Hwb).
    rewrite (genSubnet_eq sna p h s a), (genSubnet_eq sna p h s b) in Hc by assumption.
    rewrite (genSubnet_eq sna p h s a) in Hlowa by assumption.
    rewrite (genSubnet_eq sna p h s b) in Hlowb by assumption.
    cbn [net_IP net_Mask Mask_Size] in Hc, Hlowa, Hlowb.
    rewrite (IPToUint32_Uint32ToIP (subnetAddr sna a)),
      (IPToUint32_Uint32ToIP (subnetAddr sna b)) in Hc
      by now apply (subnetAddr_range sna p h s).
    rewrite IPToUint32_Uint32ToIP in Hlowa by now apply (subnetAddr_range sna p h s).
    rewrite IPToUint32_Uint32ToIP in Hlowb by now apply (subnetAddr_range sna p h s).
    apply (subnetAddr_inj sna p h s); try assumption.
    assert (0 < 2 ^ (32 - (32 - h))) by (apply Z.pow_pos_nonneg; lia).
    pose proof (Z.div_mod (subnetAddr sna a) (2 ^ (32 - (32 - h))) ltac:(lia)).
    pose proof (Z.div_mod (subnetAddr sna b) (2 ^ (32 - (32 - h))) ltac:(lia)).
    rewrite Hc in *. lia. }
  apply overlap_Contains in Hov as [Hc | Hc];
    try now apply (genSubnet_canonical sna p h s).
  - apply Hne. now apply Hsame.
  - apply Hne. symmetry. now apply Hsame.
Qed.

Lemma two_in_pool24 : 0 <= 2 < numSubnets pool24.
Proof. split; [discriminate | reflexivity]. Defined.

Lemma one_is_not_two : 1 <> 2.
Proof. discriminate. Defined.

Lemma X11_candidates_disjoint_witness :
  reachable pool24
  /\ 0 <= 1 < numSubnets pool24 /\ 0 <= 2 < numSubnets pool24 /\ 1 <> 2
  /\ ~ overlap (genSubnet pool24 1) (genSubnet pool24 2).
Proof.
  split; [exact pool24_reachable|]. split; [exact one_in_pool24|].
  split; [exact two_in_pool24|]. split; [exact one_is_not_two|].
  exact (X11_candidates_disjoint pool24 1 2 pool24_reachable one_in_pool24
           two_in_pool24 one_is_not_two).
Defined.

Lemma prefix_64 : 32 < 64 <= 128.
Proof. split; [reflexivity | discriminate]. Defined.

Lemma host_bits_8 : 0 < 8 < 2 ^ 32 - 96.
Proof. split; reflexivity. Defined.

Lemma C5_check_wraps_beyond_32_witness :
  32 < 64 <= 128 /\ 0 < 8 < 2 ^ 32 - 96
  /\ 8 > 32 - 64
  /\ U32.sub 32 (U32.wrap 64) = 2 ^ 32 + 32 - 64
  /\ hostBitsCheck 64 8 = None
  /\ (forall text inUse netIP err,
        ParseCIDR text = Some netIP ->
        NewSubnetAllocator text 8 inUse = inl err
        <-> hostBitsCheck (Mask_Size (net_Mask netIP)) 8 = Some err).
Proof.
  split; [exact prefix_64|]. split; [exact host_bits_8|].
  exact (C5_check_wraps_beyond_32 64 8 prefix_64 host_bits_8).
Defined.

(** X14. For pool text without a colon, which [net.ParseCIDR] reads as
    IPv4 text or not at all, [NewSubnetAllocator] fails exactly when the
    text does not parse, or the host-bit count is 0, or it exceeds 32
    minus the prefix length; each failure is one of the [InvalidPool]
    errors, and every other input yields an allocator. *)
Theorem X14_invalid_pool_ipv4_text (text : string) (h : Z) (inUse : list string) :
  ipv4Text text ->
  let invalid :=
    ParseCIDR text = None \/ h = 0
    \/ exists netIP, ParseCIDR text = Some netIP /\ h > 32 - Mask_Size (net_Mask netIP) in
  ((exists err, NewSubnetAllocator text h inUse = inl err) <-> invalid)
  /\ (forall err, NewSubnetAllocator text h inUse = inl err -> InvalidPool err)
  /\ (~ invalid -> exists sna, NewSubnetAllocator text h inUse = inr sna).
Proof.
  intros _. cbn zeta. unfold NewSubnetAllocator, InvalidPool.
  destruct (ParseCIDR text) as [netIP|] eqn:Hparse.
  2:{ split; [split; eauto|]. split; [intros err [= <-]; auto|].
      intros Hn. exfalso. apply Hn. auto. }
  pose proof (ParseCIDR_canonical _ _ Hparse) as [[_ Hp] _].
  set (p := Mask_Size (net_Mask netIP)) in *.
  assert (Hw : U32.sub 32 (U32.wrap p) = 32 - p).
  { u32. Z.div_mod_to_equations. lia. }
  rewrite !Hw.
  destruct (Z.eqb_spec h 0) as [Hh0|Hh0].
  { split; [split; eauto|]. split; [intros err [= <-]; auto|].
    intros Hn. exfalso. apply Hn. auto. }
  destruct (Z.ltb_spec (32 - p) h) as [Hgt|Hle].
  { split; [split; [|eauto]|].
    - intros _. right. right. exists netIP. split; [reflexivity | fold p; lia].
    - split; [intros err [= <-]; auto|].
      intros Hn. exfalso. apply Hn. right. right. exists netIP.
      split; [reflexivity | fold p; lia]. }
  split; [split|].
  - intros [err Herr]. discriminate.
  - intros [Hnone | [Hz | (n' & [= <-] & Hgt)]]; [discriminate | lia | fold p in Hgt; lia].
  - split; [discriminate | eauto].
Qed.

Lemma pool24_text : ipv4Text "10.1.0.0/24".
Proof. reflexivity. Defined.

Lemma X14_invalid_pool_ipv4_text_witness :
  ipv4Text "10.1.0.0/24"
  /\ ((exists err, NewSubnetAllocator "10.1.0.0/24" 27 [] = inl err)
      <-> ParseCIDR "10.1.0.0/24" = None \/ 27 = 0
          \/ exists netIP, ParseCIDR "10.1.0.0/24" = Some netIP
                           /\ 27 > 32 - Mask_Size (net_Mask netIP))
  /\ (forall err, NewSubnetAllocator "10.1.0.0/24" 27 [] = inl err -> InvalidPool err)
  /\ (~ (ParseCIDR "10.1.0.0/24" = None \/ 27 = 0
         \/ exists netIP, ParseCIDR "10.1.0.0/24" = Some netIP
                          /\ 27 > 32 - Mask_Size (net_Mask netIP)) ->
      exists sna, NewSubnetAllocator "10.1.0.0/24" 27 [] = inr sna).
Proof.
  split; [exact pool24_text|].
  exact (X14_invalid_pool_ipv4_text "10.1.0.0/24" 27 [] pool24_text).
Defined.
